(** * Emissions loader and cursor-paginated query endpoint

    A shallow embedding of [scripts/seed-emissions.js] (row normalizer,
    batch flusher, ingestion loop) and of the [GET /emissions] route handler
    (request validation, filter construction, lookahead paging), together
    with the parts of the JavaScript host and of the MongoDB collection
    that the code relies on.

    Conventions.
    - A JavaScript string is a [string]: one character per UTF-16 code
      unit, code units below 256.
    - A JavaScript number is a binary64 value, [spec_float] with
      precision 53 and maximal exponent 1024.
    - [undefined] is [None] in an [option].
    - A thrown exception is the [Throw] branch of [completion]. *)

From Stdlib Require Import ZArith NArith List String Ascii Bool Lia SpecFloat.
From stdpp Require Import base option list sorting gmap strings.

Open Scope string_scope.
Open Scope list_scope.

(* ================================================================== *)
(** * The JavaScript host: numbers and the conversions of strings       *)
(* ================================================================== *)

Module JS.

(** ** Numbers (IEEE 754 binary64) *)

Definition number : Type := spec_float.
Definition prec : Z := 53.
Definition emax : Z := 1024.

Definition NaN : number := S754_nan.
Definition Infinity : number := S754_infinity false.
Definition zero : number := S754_zero false.

(** [Number.isNaN] *)
Definition isNaN (x : number) : bool :=
  match x with S754_nan => true | _ => false end.

(** [Number.isFinite] *)
Definition isFinite (x : number) : bool :=
  match x with S754_zero _ | S754_finite _ _ _ => true | _ => false end.

(** [x >= y] on numbers: false as soon as one side is NaN. *)
Definition geb (x y : number) : bool :=
  match SFcompare x y with Some Eq | Some Gt => true | _ => false end.

(** The number value of the real [±m * 10^e], rounded to nearest, ties to
    even; overflow gives an infinity, and a zero keeps the sign. *)
Definition number_of_decimal (neg : bool) (m : N) (e : Z) : number :=
  match m with
  | N0 => S754_zero neg
  | Npos p =>
      if (0 <=? e)%Z then
        match (Zpos p * 10 ^ e)%Z with
        | Zpos v => binary_round prec emax neg v 0
        | _ => S754_zero neg
        end
      else
        let '(q, e', l) :=
          SFdiv_core_binary prec emax (Zpos p) 0 (10 ^ (- e))%Z 0 in
        binary_round_aux prec emax neg q e' l
  end.

(** The number value of a small non-negative integer, as in [n = 5]. *)
Definition number_of_N (n : N) : number := number_of_decimal false n 0.

(** ** Characters *)

(** [StrWhiteSpaceChar] among the code units below 256: TAB, LF, VT, FF,
    CR, SP and NBSP. *)
Definition is_ws (c : ascii) : bool :=
  let n := N_of_ascii c in
  ((9 <=? n) && (n <=? 13) || (n =? 32) || (n =? 160))%N.

Definition digit_value (c : ascii) : option N :=
  let n := N_of_ascii c in
  if ((48 <=? n) && (n <=? 57))%N then Some (n - 48)%N
  else if ((97 <=? n) && (n <=? 102))%N then Some (n - 87)%N
  else if ((65 <=? n) && (n <=? 70))%N then Some (n - 55)%N
  else None.

Definition radix_digit (r : N) (c : ascii) : option N :=
  match digit_value c with
  | Some d => if (d <? r)%N then Some d else None
  | None => None
  end.

(** The longest prefix of radix-[r] digits, and what follows it. *)
Fixpoint span_digits (r : N) (l : list ascii) : list N * list ascii :=
  match l with
  | [] => ([], [])
  | c :: l' =>
      match radix_digit r c with
      | Some d => let '(ds, rest) := span_digits r l' in (d :: ds, rest)
      | None => ([], l)
      end
  end.

Definition digits_value (r : N) (ds : list N) : N :=
  fold_left (fun a d => (a * r + d)%N) ds 0%N.

Fixpoint trim_start (l : list ascii) : list ascii :=
  match l with
  | c :: l' => if is_ws c then trim_start l' else l
  | [] => []
  end.

Definition trim_end (l : list ascii) : list ascii :=
  rev (trim_start (rev l)).

Definition trim (l : list ascii) : list ascii := trim_end (trim_start l).

(** ** [Number(string)]: the StringNumericLiteral grammar *)

(** [ExponentPart_opt] followed by the end of the literal. *)
Definition ExponentPart (l : list ascii) : option Z :=
  match l with
  | [] => Some 0%Z
  | c :: r =>
      if bool_decide (c = "e"%char \/ c = "E"%char) then
        let '(neg, r') :=
          match r with
          | "+"%char :: r' => (false, r')
          | "-"%char :: r' => (true, r')
          | _ => (false, r)
          end in
        match span_digits 10 r' with
        | (d :: ds, []) =>
            let v := Z.of_N (digits_value 10 (d :: ds)) in
            Some (if neg then (- v)%Z else v)
        | _ => None
        end
      else None
  end.

Definition StrUnsignedDecimalLiteral (neg : bool) (l : list ascii) : number :=
  if bool_decide (l = list_ascii_of_string "Infinity") then S754_infinity neg
  else
    let '(ip, r1) := span_digits 10 l in
    let '(fp, r2) :=
      match r1 with
      | "."%char :: r => span_digits 10 r
      | _ => ([], r1)
      end in
    match (ip ++ fp)%list with
    | [] => NaN
    | ds =>
        match ExponentPart r2 with
        | Some e =>
            number_of_decimal neg (digits_value 10 ds)
              (e - Z.of_nat (length fp))
        | None => NaN
        end
    end.

Definition prefix_radix (c : ascii) : option N :=
  if bool_decide (c = "x"%char \/ c = "X"%char) then Some 16%N
  else if bool_decide (c = "o"%char \/ c = "O"%char) then Some 8%N
  else if bool_decide (c = "b"%char \/ c = "B"%char) then Some 2%N
  else None.

(** [0x..], [0o..], [0b..]; [None] when the literal has no such prefix. *)
Definition NonDecimalIntegerLiteral (l : list ascii) : option number :=
  match l with
  | "0"%char :: c :: r =>
      match prefix_radix c with
      | Some R =>
          Some match span_digits R r with
               | (d :: ds, []) => number_of_decimal false (digits_value R (d :: ds)) 0
               | _ => NaN
               end
      | None => None
      end
  | _ => None
  end.

Definition StringToNumber (s : string) : number :=
  match trim (list_ascii_of_string s) with
  | [] => zero
  | l =>
      match NonDecimalIntegerLiteral l with
      | Some x => x
      | None =>
          match l with
          | "+"%char :: r => StrUnsignedDecimalLiteral false r
          | "-"%char :: r => StrUnsignedDecimalLiteral true r
          | _ => StrUnsignedDecimalLiteral false l
          end
      end
  end.

(** [Number(v)] for [v] a string or [undefined]. *)
Definition ToNumber (v : option string) : number :=
  match v with
  | Some s => StringToNumber s
  | None => NaN
  end.

(** [String(v)], also the text of [v] inside a template literal. *)
Definition ToString (v : option string) : string :=
  match v with
  | Some s => s
  | None => "undefined"
  end.

(** [Number.parseInt(v, 10)]: leading white space, an optional sign, then
    the longest prefix of decimal digits; whatever follows is ignored.  (An
    engine may read the digits after the twentieth as zeros; the model
    reads them all.) *)
Definition parseInt10 (v : option string) : number :=
  let l := trim_start (list_ascii_of_string (ToString v)) in
  let '(neg, r) :=
    match l with
    | "-"%char :: r => (true, r)
    | "+"%char :: r => (false, r)
    | _ => (false, l)
    end in
  match span_digits 10 r with
  | ([], _) => NaN
  | (ds, _) => number_of_decimal neg (digits_value 10 ds) 0
  end.

(** Truthiness of a string or [undefined]: [if (v)]. *)
Definition truthy (v : option string) : bool :=
  match v with
  | Some s => negb (String.eqb s "")
  | None => false
  end.

(** ** JSON values, as [JSON.parse] delivers them *)

#[warnings="-register-all"]
Inductive json : Type :=
  | JNull
  | JBool (b : bool)
  | JNumber (x : number)
  | JString (s : string)
  | JArray (l : list json)
  | JObject (l : list (string * json)).

(** ** What the model takes from the host as given

    [Date.parse] accepts implementation-defined formats and [JSON.parse] is
    a parser of its own; both are parameters.  A date is its time value,
    a count of milliseconds; [None] is the invalid date. *)
Class Host := {
  Date_parse : string -> option Z;
  Date_toISOString : Z -> string;
  JSON_parse : string -> option json;
  Date_parse_empty : Date_parse "" = None;
}.

End JS.

(* ================================================================== *)
(** * ObjectId: the store-assigned record identity                      *)
(* ================================================================== *)

Module ObjectId.
Import JS.

(** The twelve bytes of an ObjectId read as one big-endian number.  The
    store compares ObjectIds byte by byte, which is the order of these
    numbers. *)
Definition t : Type := N.

Definition wf (o : t) : Prop := (o < 2 ^ 96)%N.

Definition hex_char (d : N) : ascii :=
  if (d <? 10)%N then ascii_of_N (48 + d) else ascii_of_N (87 + d).

(** [w] hexadecimal digits of [n], most significant first. *)
Fixpoint hex_digits (w : nat) (n : N) : list ascii :=
  match w with
  | O => []
  | S w' => (hex_digits w' (n / 16)%N ++ [hex_char (n mod 16)%N])%list
  end.

(** The same digits, as numbers. *)
Fixpoint hex_values (w : nat) (n : N) : list N :=
  match w with
  | O => []
  | S w' => hex_values w' (n / 16)%N ++ [(n mod 16)%N]
  end.

(** [String(oid)], that is [oid.toHexString()]: 24 lower-case digits. *)
Definition toHexString (o : t) : string :=
  string_of_list_ascii (hex_digits 24 o).

(** [new ObjectId(s)] for a string [s] (bson 6 and later): exactly 24
    hexadecimal digits of either case; [None] when the constructor throws. *)
Definition of_string (s : string) : option t :=
  let l := list_ascii_of_string s in
  if (length l =? 24)%nat then
    match span_digits 16 l with
    | (ds, []) => Some (digits_value 16 ds)
    | _ => None
    end
  else None.

End ObjectId.

(* ================================================================== *)
(** * A host to run the model on                                        *)
(* ================================================================== *)

Module IsoHost.
Import JS.

(** Days since 1970-01-01 of a date of the proleptic Gregorian calendar. *)
Definition days_from_civil (y m d : Z) : Z :=
  (let y' := if m <=? 2 then y - 1 else y in
   let era := y' / 400 in
   let yoe := y' - era * 400 in
   let mp := if m <=? 2 then m + 9 else m - 3 in
   let doy := (153 * mp + 2) / 5 + d - 1 in
   let doe := yoe * 365 + yoe / 4 - yoe / 100 + doy in
   era * 146097 + doe - 719468)%Z.

Definition civil_from_days (z : Z) : Z * Z * Z :=
  (let z := z + 719468 in
   let era := z / 146097 in
   let doe := z - era * 146097 in
   let yoe := (doe - doe / 1460 + doe / 36524 - doe / 146096) / 365 in
   let doy := doe - (365 * yoe + yoe / 4 - yoe / 100) in
   let mp := (5 * doy + 2) / 153 in
   let d := doy - (153 * mp + 2) / 5 + 1 in
   let m := if mp <? 10 then mp + 3 else mp - 9 in
   (if m <=? 2 then yoe + era * 400 + 1 else yoe + era * 400, m, d))%Z.

(** [w] decimal digits of [n], most significant first. *)
Fixpoint dec_digits (w : nat) (n : Z) : list ascii :=
  match w with
  | O => []
  | S w' =>
      (dec_digits w' (n / 10)%Z ++ [ascii_of_N (48 + Z.to_N (n mod 10)%Z)])%list
  end.

(** [YYYY-MM-DDTHH:mm:ss.sssZ], for the years 0000 to 9999. *)
Definition toISOString (t : Z) : string :=
  (let '(y, m, d) := civil_from_days (t / 86400000) in
   let ms := t mod 86400000 in
   string_of_list_ascii
     (dec_digits 4 y ++ "-"%char :: dec_digits 2 m ++ "-"%char :: dec_digits 2 d
      ++ "T"%char :: dec_digits 2 (ms / 3600000)
      ++ ":"%char :: dec_digits 2 (ms / 60000 mod 60)
      ++ ":"%char :: dec_digits 2 (ms / 1000 mod 60)
      ++ "."%char :: dec_digits 3 (ms mod 1000) ++ ["Z"%char])%list)%Z.

(** A field of decimal digits and nothing else. *)
Definition field (l : list ascii) : option Z :=
  match span_digits 10 l with
  | (ds, []) => Some (Z.of_N (digits_value 10 ds))
  | _ => None
  end.

(** [Date.parse] cut down to the one format [toISOString] writes; any
    other text is an invalid date. *)
Definition parse (s : string) : option Z :=
  match list_ascii_of_string s with
  | [y1; y2; y3; y4; "-"; m1; m2; "-"; d1; d2; "T"; h1; h2; ":"; n1; n2; ":";
     s1; s2; "."; f1; f2; f3; "Z"]%char =>
      y ← field [y1; y2; y3; y4]; m ← field [m1; m2]; d ← field [d1; d2];
      h ← field [h1; h2]; n ← field [n1; n2]; sec ← field [s1; s2];
      f ← field [f1; f2; f3];
      if bool_decide (civil_from_days (days_from_civil y m d) = (y, m, d)
                      /\ h < 24 /\ n < 60 /\ sec < 60)%Z
      then Some (days_from_civil y m d * 86400000
                 + h * 3600000 + n * 60000 + sec * 1000 + f)%Z
      else None
  | _ => None
  end.

(** [JSON.parse] cut down to the empty array literal; any other text is
    rejected as malformed. *)
Definition parse_json (s : string) : option json :=
  if bool_decide (trim (list_ascii_of_string s) = list_ascii_of_string "[]")
  then Some (JArray [])
  else None.

#[export] Instance host : Host := {|
  Date_parse := parse;
  Date_toISOString := toISOString;
  JSON_parse := parse_json;
  Date_parse_empty := eq_refl;
|}.

End IsoHost.

(* ================================================================== *)
(** * Exceptions and bulk-write results                                 *)
(* ================================================================== *)

(** One entry of [err.writeErrors]. *)
Record WriteError := { code : Z; index : nat }.

(** [err.result]: older drivers report [nInserted], newer ones
    [insertedCount]; a property that is not there is [None]. *)
Record BulkWriteResult := {
  nInserted : option Z;
  insertedCount : option Z;
}.

(** A thrown value, with the properties the loader looks at. *)
Record exn := {
  message : string;
  writeErrors : option (list WriteError);
  result : option BulkWriteResult;
}.

(** [new Error(msg)] *)
Definition Error (msg : string) : exn :=
  {| message := msg; writeErrors := None; result := None |}.

Inductive completion (A : Type) : Type :=
  | Ok (a : A)
  | Throw (e : exn).
Arguments Ok {A} a.
Arguments Throw {A} e.

Definition bind {A B} (c : completion A) (k : A -> completion B) : completion B :=
  match c with
  | Ok a => k a
  | Throw e => Throw e
  end.

Declare Scope completion_scope.
Delimit Scope completion_scope with completion.
Notation "'let*' x ':=' c 'in' k" := (bind c (fun x => k))
  (at level 10, x name, c at level 100, k at level 200) : completion_scope.

(* ================================================================== *)
(** * The typed record the normalizer builds                            *)
(* ================================================================== *)

Module Rec.
Record t := {
  id : option string;
  timestamp : Z;
  siteId : option string;
  siteName : option string;
  equipmentId : option string;
  type : option string;
  mass : JS.number;
  unit : option string;
  scanDuration : JS.number;
  confidence : JS.number;
  numDetections : JS.number;
  detections : JS.json;
}.
End Rec.

(* ================================================================== *)
(** * scripts/seed-emissions.js                                         *)
(* ================================================================== *)

Module Seed.
Import JS.
Local Open Scope completion_scope.

(** One parsed CSV row: column name to raw text.  With
    [relax_column_count] a short row lacks its last columns. *)
Abbreviation Row := (gmap string string).

Section normalizer.
Context `{Host}.

Definition toNumber (v : option string) : completion number :=
  let n := ToNumber v in
  if isNaN n then Throw (Error ("Invalid number: " +:+ ToString v)) else Ok n.

Definition toInt (v : option string) : completion number :=
  let n := parseInt10 v in
  if isNaN n then Throw (Error ("Invalid int: " +:+ ToString v)) else Ok n.

(** [new Date(undefined)] is the invalid date. *)
Definition toDate (v : option string) : completion Z :=
  match v ≫= Date_parse with
  | Some d => Ok d
  | None => Throw (Error ("Invalid timestamp: " +:+ ToString v))
  end.

(** [JSON.parse(undefined)] throws as well: the text "undefined" is not
    JSON. *)
Definition safeJsonParse (v : option string) : json :=
  match v ≫= JSON_parse with
  | Some j => j
  | None => JArray []
  end.

(** The properties of the object literal are evaluated in source order;
    the first conversion that throws ends the evaluation. *)
Definition mapRow (row : Row) : completion Rec.t :=
  let* ts := toDate (row !! "timestamp") in
  let* m := toNumber (row !! "mass") in
  let* sd := toInt (row !! "scanDuration") in
  let* c := toNumber (row !! "confidence") in
  let* nd := toInt (row !! "numDetections") in
  Ok {| Rec.id := row !! "id";
        Rec.timestamp := ts;
        Rec.siteId := row !! "siteId";
        Rec.siteName := row !! "siteName";
        Rec.equipmentId := row !! "equipmentId";
        Rec.type := row !! "type";
        Rec.mass := m;
        Rec.unit := row !! "unit";
        Rec.scanDuration := sd;
        Rec.confidence := c;
        Rec.numDetections := nd;
        Rec.detections := safeJsonParse (row !! "detections") |}.

End normalizer.

(** The index documents [ensureIndexes] hands to [createIndexes]. *)
Record index_spec := {
  key : list (string * Z);
  name : string;
  unique : bool;
}.

Definition ensureIndexes : list index_spec :=
  [ {| key := [("id", 1%Z)]; name := "by_id"; unique := true |};
    {| key := [("siteId", 1); ("equipmentId", 1); ("timestamp", -1); ("_id", -1)]%Z;
       name := "by_scope_time"; unique := false |};
    {| key := [("siteId", 1); ("timestamp", -1); ("_id", -1)]%Z;
       name := "by_site_time"; unique := false |} ].

(** [Number(process.env.BATCH_SIZE || 5000)] *)
Definition BATCH_SIZE (env : option string) : number :=
  if truthy env then ToNumber env else number_of_N 5000.

(** The variables [batch], [inserted] and [skipped] of [main]. *)
Record vars := {
  batch : list Rec.t;
  inserted : Z;
  skipped : Z;
}.

(** The collection as the loader uses it: [insertMany(docs, {ordered:
    false})] resolves to [res.insertedCount] or rejects, and moves the
    collection to a next state. *)
Class Collection (C : Type) := {
  insertMany : C -> list Rec.t -> completion Z * C;
}.

(** [a || b || 0] on counts that may be absent: 0 and [undefined] are
    falsy. *)
Definition first_truthy (a b : option Z) : Z :=
  match a with
  | Some n => if (n =? 0)%Z then
                match b with Some k => k | None => 0%Z end
              else n
  | None => match b with Some k => k | None => 0%Z end
  end.

Section loader.
Context `{Host} {C : Type} `{Collection C}.
Variable env_BATCH_SIZE : option string.

(** How a step of the run ends: normally, or with a thrown value that
    nothing below [main] catches.  Both carry the variables and the
    collection as the step leaves them. *)
Inductive outcome : Type :=
  | Normal (v : vars) (c : C)
  | Abrupt (e : exn) (v : vars) (c : C).

Definition flushBatch (v : vars) (c : C) : outcome :=
  match batch v with
  | [] => Normal v c
  | docs =>
      let v := {| batch := []; inserted := inserted v; skipped := skipped v |} in
      match insertMany c docs with
      | (Ok n, c') =>
          Normal {| batch := batch v; inserted := inserted v + n;
                    skipped := skipped v |} c'
      | (Throw err, c') =>
          match writeErrors err with
          | Some wes =>
              let dupes :=
                Z.of_nat (length (filter (fun e => code e = 11000%Z) wes)) in
              let successful :=
                first_truthy (result err ≫= nInserted)
                             (result err ≫= insertedCount) in
              Normal {| batch := batch v; inserted := inserted v + successful;
                        skipped := skipped v + dupes |} c'
          | None => Abrupt err v c'
          end
      end
  end.

(** The ["data"] listener.  The parser is paused while a flush is in
    flight, so the next row is taken only after the flush settled; a flush
    that rejects destroys the parser. *)
Definition on_data (row : Row) (v : vars) (c : C) : outcome :=
  match mapRow row with
  | Throw _ =>
      Normal {| batch := batch v; inserted := inserted v;
                skipped := skipped v + 1 |} c
  | Ok r =>
      let v := {| batch := batch v ++ [r]; inserted := inserted v;
                  skipped := skipped v |} in
      if geb (number_of_N (N.of_nat (length (batch v))))
             (BATCH_SIZE env_BATCH_SIZE)
      then flushBatch v c
      else Normal v c
  end.

(** The pipeline over the rows of the input. *)
Fixpoint consume (rows : list Row) (v : vars) (c : C) : outcome :=
  match rows with
  | [] => Normal v c
  | row :: rows' =>
      match on_data row v c with
      | Normal v' c' => consume rows' v' c'
      | Abrupt e v' c' => Abrupt e v' c'
      end
  end.

End loader.

(** What [main] asks of the server before the first row: [await
    client.connect()] and, in [ensureIndexes], [await
    col.createIndexes(...)].  Each resolves or rejects; building the
    indexes moves the collection to a next state. *)
Class Client (C : Type) := {
  connect : C -> completion unit;
  createIndexes : C -> list index_spec -> completion C;
}.

Section run.
Context `{Host} {C : Type} `{Collection C} `{Client C}.
Variable env_BATCH_SIZE : option string.

(** How [main] ends.
    - [Done v flight unread c]: the line DONE is logged with the counters
      of [v].  [flight] holds the documents of a flush of the listener
      that has not settled by then ([[]] when none is in flight), [unread]
      the rows the paused parser still holds, and [c] is the collection
      without the documents in flight.
    - [Failed e v c]: the promise of [main] rejects with [e] after rows
      were read; no DONE is logged.
    - [NotStarted e]: it rejects with [e] before the first row is read. *)
Inductive ending : Type :=
  | Done (v : vars) (flight : list Rec.t) (unread : list Row) (c : C)
  | Failed (e : exn) (v : vars) (c : C)
  | NotStarted (e : exn).

(** [await pipeline(...)], [await flushBatch()] and the report.

    [pipeline] resolves when the writable side of the parser has
    finished.  That waits neither for a flush the listener started (its
    promise is chained to [resume] and [destroy], nothing awaits it) nor
    for the rows the paused parser still holds.  So the input may end
    while a flush of the listener is in flight: [overtaken = Some k] says
    that this happens to the flush that follows [k] settled ones, [None]
    that the input ends with no flush in flight.

    While a flush is in flight the parser is paused and the batch is
    empty ([docs = batch; batch = []] runs before [insertMany]).  When the
    input ends then, [main] goes on at once: the final [flushBatch] finds
    the batch empty and returns, and DONE is logged with the counters as
    they stand.  Otherwise the flush settles first: resolved, the parser
    resumes with the next row; rejected, the parser is destroyed with the
    error, [pipeline] rejects and so does [main]. *)
Fixpoint stream (overtaken : option nat) (rows : list Row) (v : vars) (c : C)
  : ending :=
  match rows with
  | [] =>
      match flushBatch v c with
      | Normal v' c' => Done v' [] [] c'
      | Abrupt e v' c' => Failed e v' c'
      end
  | row :: rows' =>
      match mapRow row with
      | Throw _ =>
          stream overtaken rows'
            {| batch := batch v; inserted := inserted v;
               skipped := skipped v + 1 |} c
      | Ok r =>
          let v := {| batch := batch v ++ [r]; inserted := inserted v;
                      skipped := skipped v |} in
          if geb (number_of_N (N.of_nat (length (batch v))))
                 (BATCH_SIZE env_BATCH_SIZE)
          then
            match overtaken with
            | Some O =>
                Done {| batch := []; inserted := inserted v;
                        skipped := skipped v |} (batch v) rows' c
            | _ =>
                match flushBatch v c with
                | Normal v' c' => stream (pred <$> overtaken) rows' v' c'
                | Abrupt e v' c' => Failed e v' c'
                end
            end
          else stream overtaken rows' v c
      end
  end.

(** [main]: connect, build the indexes, then the rows.  The input is
    readable to its end; [rows] are the records the parser emits. *)
Definition main (overtaken : option nat) (rows : list Row) (c : C) : ending :=
  match connect c with
  | Throw e => NotStarted e
  | Ok _ =>
      match createIndexes c ensureIndexes with
      | Throw e => NotStarted e
      | Ok c' =>
          stream overtaken rows {| batch := []; inserted := 0; skipped := 0 |} c'
      end
  end.

End run.

(** ** A collection with the unique index [by_id]

    Unordered insertion: every document is tried.  A document that fails
    the collection's validator (if it has one) is refused with code 121,
    one whose [id] is already present with code 11000; the others are
    inserted.  With at least one refusal the call rejects with a bulk write
    error that reports the refusals and the number inserted. *)
Record coll := {
  validator : Rec.t -> bool;
  contents : list Rec.t;
}.

Fixpoint insert_each (valid : Rec.t -> bool) (i : nat) (docs have : list Rec.t)
  : list WriteError * list Rec.t :=
  match docs with
  | [] => ([], have)
  | d :: docs' =>
      if negb (valid d) then
        let '(es, have') := insert_each valid (S i) docs' have in
        ({| code := 121; index := i |} :: es, have')
      else if bool_decide (Rec.id d ∈ map Rec.id have) then
        let '(es, have') := insert_each valid (S i) docs' have in
        ({| code := 11000; index := i |} :: es, have')
      else insert_each valid (S i) docs' (have ++ [d])
  end.

Definition coll_insertMany (c : coll) (docs : list Rec.t) : completion Z * coll :=
  let '(es, have) := insert_each (validator c) 0 docs (contents c) in
  let n := (Z.of_nat (length have) - Z.of_nat (length (contents c)))%Z in
  let c' := {| validator := validator c; contents := have |} in
  match es with
  | [] => (Ok n, c')
  | _ =>
      (Throw {| message := "bulk write error";
                writeErrors := Some es;
                result := Some {| nInserted := None; insertedCount := Some n |} |},
       c')
  end.

#[export] Instance coll_Collection : Collection coll := {|
  insertMany := coll_insertMany;
|}.

(** The unique index can be built only when no two documents share their
    [id]; otherwise [createIndexes] rejects with a duplicate-key error. *)
Definition coll_createIndexes (c : coll) (specs : list index_spec)
  : completion coll :=
  if existsb (fun s => unique s && bool_decide (key s = [("id", 1%Z)])) specs
     && negb (bool_decide (NoDup (map Rec.id (contents c))))
  then Throw (Error "E11000 duplicate key error collection")
  else Ok c.

#[export] Instance coll_Client : Client coll := {|
  connect := fun _ => Ok tt;
  createIndexes := coll_createIndexes;
|}.

(** ** A collection that cannot be reached

    Every [insertMany] rejects with a network error, which carries no
    [writeErrors]; so do [connect] and [createIndexes]. *)
Inductive offline : Type := Offline.

#[export] Instance offline_Collection : Collection offline := {|
  insertMany := fun c _ =>
    (Throw {| message := "connect ECONNREFUSED";
              writeErrors := None; result := None |}, c);
|}.

#[export] Instance offline_Client : Client offline := {|
  connect := fun _ => Throw (Error "connect ECONNREFUSED");
  createIndexes := fun _ _ => Throw (Error "connect ECONNREFUSED");
|}.

(** ** A server that is lost after start-up

    [connect] and [createIndexes] resolve; every [insertMany] after them
    rejects with a network error. *)
Inductive lost : Type := Lost.

#[export] Instance lost_Collection : Collection lost := {|
  insertMany := fun c _ => (Throw (Error "connection closed"), c);
|}.

#[export] Instance lost_Client : Client lost := {|
  connect := fun _ => Ok tt;
  createIndexes := fun c _ => Ok c;
|}.

End Seed.

(* ================================================================== *)
(** * The collection as the query path sees it                          *)
(* ================================================================== *)

Module Mongo.
Import JS.

(** A stored document: the record the loader inserted and the [_id] the
    driver gave it. *)
Record document := {
  _id : ObjectId.t;
  body : Rec.t;
}.

Inductive value : Type :=
  | VNull
  | VString (s : string)
  | VNumber (x : number)
  | VDate (t : Z)
  | VJson (j : json).

(** [undefined] is stored as null. *)
Definition string_value (v : option string) : value :=
  match v with
  | Some s => VString s
  | None => VNull
  end.

(** The fields of a stored document, [_id] apart. *)
Definition fields_of (r : Rec.t) : gmap string value :=
  list_to_map
    [("id", string_value (Rec.id r));
     ("timestamp", VDate (Rec.timestamp r));
     ("siteId", string_value (Rec.siteId r));
     ("siteName", string_value (Rec.siteName r));
     ("equipmentId", string_value (Rec.equipmentId r));
     ("type", string_value (Rec.type r));
     ("mass", VNumber (Rec.mass r));
     ("unit", string_value (Rec.unit r));
     ("scanDuration", VNumber (Rec.scanDuration r));
     ("confidence", VNumber (Rec.confidence r));
     ("numDetections", VNumber (Rec.numDetections r));
     ("detections", VJson (Rec.detections r))].

(** A document as [find] delivers it: [_id] and the projected fields. *)
Record item := {
  item_id : ObjectId.t;
  item_fields : gmap string value;
}.

(** ** Filters *)

Inductive cond : Type :=
  | SiteIdEq (s : string)          (* siteId: s *)
  | EquipmentIdEq (s : string)     (* equipmentId: s *)
  | ConfidenceGte (c : number)     (* confidence: {$gte: c} *)
  | TimestampGte (t : Z)           (* timestamp: {$gte: t} *)
  | TimestampLte (t : Z)           (* timestamp: {$lte: t} *)
  | TimestampLt (t : Z)            (* timestamp: {$lt: t} *)
  | TimestampEq (t : Z)            (* timestamp: t *)
  | IdLt (o : ObjectId.t).         (* _id: {$lt: o} *)

(** A query document: every top-level condition holds and, with [$or],
    at least one of its clauses does. *)
Record selector := {
  conds : list cond;
  or_ : option (list (list cond));
}.

Definition holds (d : document) (c : cond) : bool :=
  match c with
  | SiteIdEq s => bool_decide (Rec.siteId (body d) = Some s)
  | EquipmentIdEq s => bool_decide (Rec.equipmentId (body d) = Some s)
  | ConfidenceGte c => geb (Rec.confidence (body d)) c
  | TimestampGte t => (t <=? Rec.timestamp (body d))%Z
  | TimestampLte t => (Rec.timestamp (body d) <=? t)%Z
  | TimestampLt t => (Rec.timestamp (body d) <? t)%Z
  | TimestampEq t => (Rec.timestamp (body d) =? t)%Z
  | IdLt o => (_id d <? o)%N
  end.

Definition matches (f : selector) (d : document) : bool :=
  forallb (holds d) (conds f)
  && match or_ f with
     | Some clauses => existsb (fun cl => forallb (holds d) cl) clauses
     | None => true
     end.

(** ** Sorting *)

Inductive sort_key := ByTimestamp | ById.

Definition key_compare (k : sort_key) (d1 d2 : document) : comparison :=
  match k with
  | ByTimestamp => (Rec.timestamp (body d1) ?= Rec.timestamp (body d2))%Z
  | ById => (_id d1 ?= _id d2)%N
  end.

(** A sort document: keys in order, 1 ascending and -1 descending. *)
Fixpoint sort_compare (spec : list (sort_key * Z)) (d1 d2 : document) : comparison :=
  match spec with
  | [] => Eq
  | (k, dir) :: spec' =>
      match key_compare k d1 d2 with
      | Eq => sort_compare spec' d1 d2
      | c => if (dir <? 0)%Z then CompOpp c else c
      end
  end.

Definition sorts_before (spec : list (sort_key * Z)) (d1 d2 : document) : Prop :=
  sort_compare spec d1 d2 <> Gt.

#[export] Instance sorts_before_dec spec d1 d2 : Decision (sorts_before spec d1 d2).
Proof. unfold sorts_before. destruct (sort_compare spec d1 d2); [left|left|right]; congruence. Defined.

(** ** Projection and limit *)

(** An inclusion projection keeps the listed fields that the document
    has; [_id] comes along. *)
Definition project (names : list string) (d : document) : item :=
  {| item_id := _id d;
     item_fields := filter (fun kv => kv.1 ∈ names) (fields_of (body d)) |}.

(** [cursor.limit(n)]: 0 is no limit, and a negative [n] limits to its
    absolute value. *)
Definition limit_to {A} (n : Z) (l : list A) : list A :=
  if (n =? 0)%Z then l else take (Z.to_nat (Z.abs n)) l.

Record find_request := {
  fr_filter : selector;
  fr_projection : list string;
  fr_sort : list (sort_key * Z);
  fr_limit : Z;
}.

(** [col.find(filter, {projection}).sort(spec).limit(n).toArray()] *)
Definition find (coll : list document) (req : find_request) : list item :=
  project (fr_projection req)
    <$> limit_to (fr_limit req)
          (merge_sort (sorts_before (fr_sort req))
             (filter (fun d => matches (fr_filter req) d = true) coll)).

End Mongo.

(* ================================================================== *)
(** * routes/emissions.routes.js                                        *)
(* ================================================================== *)

(** [req.query] after schema validation and coercion. *)
Module Query.
Record t := {
  siteId : string;
  equipmentId : string;
  from : option string;
  to : option string;
  confidenceMin : JS.number;
  limit : Z;
  includeDetections : bool;
  cursorTs : option string;
  cursorId : option string;
}.
End Query.

Module Routes.
Import JS Mongo.

(** What the querystring schema guarantees to the handler. *)
Definition schema_valid (q : Query.t) : Prop :=
  Query.siteId q <> "" /\ Query.equipmentId q <> ""
  /\ geb (Query.confidenceMin q) zero = true
  /\ geb (number_of_N 1) (Query.confidenceMin q) = true
  /\ (1 <= Query.limit q <= 1000)%Z.

Record cursor := {
  cursorTs : string;
  cursorId : string;
}.

Record page := {
  count : nat;
  siteId : string;
  equipmentId : string;
  nextCursor : option cursor;
  items : list item;
}.

Inductive reply : Type :=
  | SendPage (p : page)                       (* reply.send({...}) *)
  | SendError (status : Z) (error : string).  (* reply.code(n).send({error}) *)

(** A handler run is a reply, or a query put to the collection and a run
    that goes on from what the collection answers. *)
Inductive prog (A : Type) : Type :=
  | Ret (a : A)
  | Find (req : find_request) (k : completion (list item) -> prog A).
Arguments Ret {A} a.
Arguments Find {A} req k.

(** [docs.slice(0, n)] *)
Definition slice0 {A} (docs : list A) (n : Z) : list A :=
  if (n <? 0)%Z then take (Z.to_nat (Z.of_nat (length docs) + n)) docs
  else take (Z.to_nat n) docs.

Section handler.
Context `{Host}.

(** [if (v) { const d = new Date(v); if (isNaN(d)) return 400 ... }] *)
Definition time_bound (v : option string) (msg : string) : reply + option Z :=
  if truthy v then
    match Date_parse (ToString v) with
    | Some d => inr (Some d)
    | None => inl (SendError 400 msg)
    end
  else inr None.

(** The [$or] of the cursor, lines 69 to 91. *)
Definition cursor_filter (q : Query.t) : reply + option (list (list cond)) :=
  if truthy (Query.cursorTs q) || truthy (Query.cursorId q) then
    if negb (truthy (Query.cursorTs q)) || negb (truthy (Query.cursorId q)) then
      inl (SendError 400 "Both cursorTs and cursorId are required together")
    else
      match Date_parse (ToString (Query.cursorTs q)) with
      | None => inl (SendError 400 "Invalid 'cursorTs' timestamp")
      | Some ts =>
          match ObjectId.of_string (ToString (Query.cursorId q)) with
          | None => inl (SendError 400 "Invalid 'cursorId' ObjectId")
          | Some oid =>
              inr (Some [[TimestampLt ts]; [TimestampEq ts; IdLt oid]])
          end
      end
  else inr None.

Definition projection (q : Query.t) : list string :=
  if Query.includeDetections q
  then ["_id"; "siteId"; "equipmentId"; "timestamp"; "confidence"; "detections"]
  else ["_id"; "siteId"; "equipmentId"; "timestamp"; "confidence"].

(** Lines 44 to 102: the request is refused, or the one query is built. *)
Definition plan (q : Query.t) : reply + find_request :=
  match time_bound (Query.from q) "Invalid 'from' timestamp" with
  | inl r => inl r
  | inr gte =>
  match time_bound (Query.to q) "Invalid 'to' timestamp" with
  | inl r => inl r
  | inr lte =>
  if match gte, lte with
     | Some a, Some b => (b <? a)%Z
     | _, _ => false
     end
  then inl (SendError 400 "'from' must be <= 'to'")
  else
    let timeFilter :=
      match gte with Some a => [TimestampGte a] | None => [] end
      ++ match lte with Some b => [TimestampLte b] | None => [] end in
    let base :=
      [SiteIdEq (Query.siteId q); EquipmentIdEq (Query.equipmentId q);
       ConfidenceGte (Query.confidenceMin q)] ++ timeFilter in
    match cursor_filter q with
    | inl r => inl r
    | inr cur =>
        inr {| fr_filter := {| conds := base; or_ := cur |};
               fr_projection := projection q;
               fr_sort := [(ByTimestamp, -1); (ById, -1)]%Z;
               fr_limit := Query.limit q + 1 |}
    end
  end end.

(** [last.timestamp.toISOString()] throws unless the field is a date. *)
Definition cursor_of (last : item) : completion cursor :=
  match item_fields last !! "timestamp" with
  | Some (VDate t) =>
      Ok {| cursorTs := Date_toISOString t;
            cursorId := ObjectId.toHexString (item_id last) |}
  | _ => Throw (Error "last.timestamp.toISOString is not a function")
  end.

(** Lines 104 to 127: the page from what the collection answered; what
    is thrown on the way is caught and answered with status 500. *)
Definition respond (q : Query.t) (res : completion (list item)) : reply :=
  let outcome :=
    (let* docs := res in
     let hasMore := (Query.limit q <? Z.of_nat (length docs))%Z in
     let items := if hasMore then slice0 docs (Query.limit q) else docs in
     let* next :=
       match (if hasMore then last items else None) with
       | Some l => let* c := cursor_of l in Ok (Some c)
       | None => Ok None
       end in
     Ok {| count := length items;
           siteId := Query.siteId q;
           equipmentId := Query.equipmentId q;
           nextCursor := next;
           items := items |})%completion in
  match outcome with
  | Ok p => SendPage p
  | Throw _ => SendError 500 "Internal server error"
  end.

Definition handler (q : Query.t) : prog reply :=
  match plan q with
  | inl r => Ret r
  | inr req => Find req (fun res => Ret (respond q res))
  end.

End handler.

(** ** The handler against a collection, and a client that pages *)

Fixpoint run {A} (coll : list document) (p : prog A) : A :=
  match p with
  | Ret a => a
  | Find req k => run coll (k (Ok (find coll req)))
  end.

Definition with_cursor (q : Query.t) (c : option cursor) : Query.t :=
  {| Query.siteId := Query.siteId q;
     Query.equipmentId := Query.equipmentId q;
     Query.from := Query.from q;
     Query.to := Query.to q;
     Query.confidenceMin := Query.confidenceMin q;
     Query.limit := Query.limit q;
     Query.includeDetections := Query.includeDetections q;
     Query.cursorTs := cursorTs <$> c;
     Query.cursorId := cursorId <$> c |}.

(** Request after request, each with the [nextCursor] of the reply
    before, until [nextCursor] is null: the pages in order.  [None] when a
    request is answered with an error or the requests allowed are used up. *)
Fixpoint pages `{Host} (n : nat) (coll : list document) (q : Query.t)
  (c : option cursor) : option (list (list item)) :=
  match n with
  | O => None
  | S n' =>
      match run coll (handler (with_cursor q c)) with
      | SendPage p =>
          match nextCursor p with
          | None => Some [items p]
          | Some c' => cons (items p) <$> pages n' coll q (Some c')
          end
      | SendError _ _ => None
      end
  end.

(** The request with no cursor and no limit: what one query without
    paging answers. *)
Definition unlimited `{Host} (coll : list document) (q : Query.t) : option (list item) :=
  match plan (with_cursor q None) with
  | inr req =>
      Some (find coll {| fr_filter := fr_filter req;
                         fr_projection := fr_projection req;
                         fr_sort := fr_sort req;
                         fr_limit := 0 |})
  | inl _ => None
  end.

End Routes.

(* ================================================================== *)
(** * Notions the statements below are phrased in                        *)
(* ================================================================== *)

Module Words.
Import JS.

(** White space and nothing else (the empty text included). *)
Definition blank (s : string) : Prop :=
  forallb is_ws (list_ascii_of_string s) = true.

Definition strip_sign (l : list ascii) : bool * list ascii :=
  match l with
  | "-"%char :: r => (true, r)
  | "+"%char :: r => (false, r)
  | _ => (false, l)
  end.

(** What [parseInt] reads of a raw value: the sign and the run of decimal
    digits that follows the leading white space and the sign. *)
Definition leading_int (v : option string) : bool * list N :=
  let '(neg, r) := strip_sign (trim_start (list_ascii_of_string (ToString v))) in
  (neg, fst (span_digits 10 r)).

(** The text is an integer, white space around it apart: an optional sign
    and decimal digits, at least one, and nothing else. *)
Definition integer_text (s : string) : Prop :=
  let '(_, r) := strip_sign (trim (list_ascii_of_string s)) in
  exists d ds, span_digits 10 r = (d :: ds, []).

(** A failure of the bulk write that is a duplicate-key failure: it
    reports per-record errors, and each of them has code 11000. *)
Definition duplicate_key_error (e : exn) : Prop :=
  exists wes, writeErrors e = Some wes /\ Forall (fun w => code w = 11000%Z) wes.

(** An answer of [insertMany] to the documents [docs] in which every
    document was inserted or refused as a duplicate, and the counts
    reported say so. *)
Definition accounted (docs : list Rec.t) (a : completion Z) : Prop :=
  match a with
  | Ok n => n = Z.of_nat (length docs)
  | Throw e =>
      exists wes,
        writeErrors e = Some wes
        /\ Forall (fun w => code w = 11000%Z) wes
        /\ (Seed.first_truthy (result e ≫= nInserted) (result e ≫= insertedCount)
            + Z.of_nat (length wes) = Z.of_nat (length docs))%Z
  end.

(** The run ended with DONE while a flush of the listener was in
    flight. *)
Definition ended_in_flight {C} (r : Seed.ending (C := C)) : Prop :=
  exists v flight unread c, r = Seed.Done v flight unread c /\ flight <> [].

(** [d] sorts strictly after the position [(ts, oid)] under
    (timestamp desc, recordIdentity desc). *)
Definition after (ts : Z) (oid : ObjectId.t) (d : Mongo.document) : Prop :=
  (Rec.timestamp (Mongo.body d) < ts)%Z
  \/ (Rec.timestamp (Mongo.body d) = ts /\ (Mongo._id d < oid)%N).

#[export] Instance after_dec ts oid d : Decision (after ts oid d).
Proof. unfold after. apply _. Defined.

(** [d1] comes strictly before [d2] in that order. *)
Definition strictly_before (d1 d2 : Mongo.document) : Prop :=
  after (Rec.timestamp (Mongo.body d1)) (Mongo._id d1) d2.

(** A request parameter that is there with a text that is not empty. *)
Definition given (v : option string) (s : string) : Prop :=
  v = Some s /\ s <> "".

(** The requests the route refuses. *)
Definition invalid `{Host} (q : Query.t) : Prop :=
  (exists s, given (Query.from q) s /\ Date_parse s = None)
  \/ (exists s, given (Query.to q) s /\ Date_parse s = None)
  \/ (exists s1 s2 a b,
        given (Query.from q) s1 /\ given (Query.to q) s2
        /\ Date_parse s1 = Some a /\ Date_parse s2 = Some b /\ (b < a)%Z)
  \/ (truthy (Query.cursorTs q) <> truthy (Query.cursorId q))
  \/ (exists s1 s2,
        given (Query.cursorTs q) s1 /\ given (Query.cursorId q) s2
        /\ (Date_parse s1 = None \/ ObjectId.of_string s2 = None)).

(** The messages of the refusals. *)
Definition refusals : list string :=
  ["Invalid 'from' timestamp"; "Invalid 'to' timestamp";
   "'from' must be <= 'to'";
   "Both cursorTs and cursorId are required together";
   "Invalid 'cursorTs' timestamp"; "Invalid 'cursorId' ObjectId"].

(** An item whose [timestamp] field is a date. *)
Definition dated (it : Mongo.item) : Prop :=
  exists t, Mongo.item_fields it !! "timestamp" = Some (Mongo.VDate t).

(** A stored document whose position survives the round trip through
    the text of a cursor. *)
Definition cursor_readable `{Host} (d : Mongo.document) : Prop :=
  ObjectId.wf (Mongo._id d)
  /\ Date_parse (Date_toISOString (Rec.timestamp (Mongo.body d)))
     = Some (Rec.timestamp (Mongo.body d)).

(** The cursor a page ending with the document [d] hands out. *)
Definition cursor_at `{Host} (d : Mongo.document) : Routes.cursor :=
  {| Routes.cursorTs := Date_toISOString (Rec.timestamp (Mongo.body d));
     Routes.cursorId := ObjectId.toHexString (Mongo._id d) |}.

(** The request with cursor [c] stands behind the documents [pre]: it
    has no cursor and [pre] is empty, or its cursor is that of the last
    document of [pre]. *)
Definition behind `{Host} (pre : list Mongo.document) (c : option Routes.cursor)
  : Prop :=
  match c with
  | None => pre = []
  | Some c => exists pre' d, pre = pre' ++ [d] /\ c = cursor_at d
  end.

(** The attributes of an EmissionRecord in the data model. *)
Definition record_attributes : list string :=
  ["id"; "timestamp"; "siteId"; "siteName"; "equipmentId"; "type"; "mass";
   "unit"; "scanDuration"; "confidence"; "numDetections"].

End Words.

(* ================================================================== *)
(** * Sample data                                                       *)
(* ================================================================== *)

Module Samples.
Import JS.

(** The row of the test "mapRow converts types correctly", with an empty
    detections list. *)
Definition row : Seed.Row :=
  list_to_map
    [("id", "uuid-1"); ("timestamp", "2026-01-01T00:00:00.000Z");
     ("siteId", "site-1"); ("siteName", "Site Name");
     ("equipmentId", "equip-1"); ("type", "CH4"); ("mass", "12.34");
     ("unit", "kg"); ("scanDuration", "10"); ("confidence", "0.9");
     ("numDetections", "2"); ("detections", "[]")].

Definition record (id : string) (ts : Z) : Rec.t :=
  {| Rec.id := Some id; Rec.timestamp := ts;
     Rec.siteId := Some "s1"; Rec.siteName := Some "Site Name";
     Rec.equipmentId := Some "e1"; Rec.type := Some "CH4";
     Rec.mass := StringToNumber "12.34"; Rec.unit := Some "kg";
     Rec.scanDuration := StringToNumber "10";
     Rec.confidence := StringToNumber "0.9";
     Rec.numDetections := StringToNumber "2";
     Rec.detections := JArray [] |}.

(** Three stored documents of one equipment, two of them at the same
    instant. *)
Definition stored : list Mongo.document :=
  [ {| Mongo._id := 5%N; Mongo.body := record "a" 1000 |};
    {| Mongo._id := 7%N; Mongo.body := record "b" 1000 |};
    {| Mongo._id := 6%N; Mongo.body := record "c" 2000 |} ].

Definition query (from : option string) (limit : Z) (c : option Routes.cursor)
  : Query.t :=
  Routes.with_cursor
    {| Query.siteId := "s1"; Query.equipmentId := "e1";
       Query.from := from; Query.to := None;
       Query.confidenceMin := StringToNumber "0.75"; Query.limit := limit;
       Query.includeDetections := false;
       Query.cursorTs := None; Query.cursorId := None |} c.

Definition row_with (column text : string) : Seed.Row := <[column := text]> row.

(** An empty collection with the unique index and no validator. *)
Definition empty_coll : Seed.coll :=
  {| Seed.validator := fun _ => true; Seed.contents := [] |}.

(** An empty collection whose validator asks for a finite mass. *)
Definition strict_coll : Seed.coll :=
  {| Seed.validator := fun r => isFinite (Rec.mass r); Seed.contents := [] |}.

(** The counters that DONE reports and the size of the collection
    then. *)
Definition seen (o : Seed.ending (C := Seed.coll)) : option (Z * Z * nat) :=
  match o with
  | Seed.Done v _ _ c =>
      Some (Seed.inserted v, Seed.skipped v, length (Seed.contents c))
  | _ => None
  end.

(** The count, the cursor and the [_id]s of a page. *)
Definition summary (r : Routes.reply)
  : option (nat * option Routes.cursor * list ObjectId.t) :=
  match r with
  | Routes.SendPage p =>
      Some (Routes.count p, Routes.nextCursor p,
            Mongo.item_id <$> Routes.items p)
  | Routes.SendError _ _ => None
  end.

End Samples.

(* ================================================================== *)
(** * Further notions: the loader row by row, requests and items        *)
(* ================================================================== *)

Module Notions.
Import JS Seed Mongo Routes Words.

(** The records of the rows the normalizer accepts, in input order. *)
Definition accepted `{Host} (rows : list Row) : list Rec.t :=
  omap (fun row => match mapRow row with
                   | Ok r => Some r
                   | Throw _ => None
                   end) rows.

(** A loader that keeps no batch: inserted and skipped counts and the
    contents of the unique-index collection, one record at a time.  A
    record the validator refuses is counted nowhere, one whose [id] is
    present is skipped, any other is inserted at the end. *)
Definition offer (valid : Rec.t -> bool) (s : Z * Z * list Rec.t) (r : Rec.t)
  : Z * Z * list Rec.t :=
  let '(ins, sk, have) := s in
  if negb (valid r) then (ins, sk, have)
  else if bool_decide (Rec.id r ∈ map Rec.id have) then (ins, sk + 1, have)%Z
  else (ins + 1, sk, have ++ [r])%Z.

Definition tally `{Host} (valid : Rec.t -> bool) (s : Z * Z * list Rec.t)
    (row : Row) : Z * Z * list Rec.t :=
  match mapRow row with
  | Ok r => offer valid s r
  | Throw _ => let '(ins, sk, have) := s in (ins, sk + 1, have)%Z
  end.

Definition ledger `{Host} (valid : Rec.t -> bool) (rows : list Row)
    (s : Z * Z * list Rec.t) : Z * Z * list Rec.t :=
  fold_left (tally valid) rows s.

(** The duplicate-key entries among the write errors. *)
Definition dupes (es : list WriteError) : Z :=
  Z.of_nat (length (filter (fun e => code e = 11000%Z) es)).

(** Where the run would stand were the batch flushed now. *)
Definition settled (v : vars) (c : coll) : Z * Z * list Rec.t :=
  let '(es, have) := insert_each (validator c) 0 (batch v) (contents c) in
  (inserted v + (Z.of_nat (length have) - Z.of_nat (length (contents c))),
   skipped v + dupes es, have)%Z.

(** A collection that keeps, in order, the batches it was handed. *)
Record logged (C : Type) := {
  inner : C;
  handed : list (list Rec.t);
}.
Arguments inner {C} l.
Arguments handed {C} l.

#[export] Instance logged_Collection `{Collection C} : Collection (logged C) := {|
  insertMany := fun c docs =>
    let '(a, c') := insertMany (inner c) docs in
    (a, {| inner := c'; handed := handed c ++ [docs] |});
|}.

#[export] Instance logged_Client `{Client C} : Client (logged C) := {|
  connect := fun c => connect (inner c);
  createIndexes := fun c specs =>
    match createIndexes (inner c) specs with
    | Ok c' => Ok {| inner := c'; handed := handed c |}
    | Throw e => Throw e
    end;
|}.

(** The batches [insertMany] was called with by the end of a run: those
    the collection logged and the one in flight. *)
Definition handed_by {C} (r : ending (C := logged C)) : list (list Rec.t) :=
  match r with
  | Done _ flight _ c =>
      handed c ++ match flight with [] => [] | _ => [flight] end
  | Failed _ _ c => handed c
  | NotStarted _ => []
  end.

(** The document is of the site and the equipment of the request. *)
Definition in_scope (q : Query.t) (d : document) : Prop :=
  Rec.siteId (body d) = Some (Query.siteId q)
  /\ Rec.equipmentId (body d) = Some (Query.equipmentId q).

#[export] Instance in_scope_dec q d : Decision (in_scope q d).
Proof. unfold in_scope. apply _. Defined.

(** The document is one the request asks for: its scope, its confidence
    floor and its time window. *)
Definition satisfies `{Host} (q : Query.t) (d : document) : Prop :=
  in_scope q d
  /\ geb (Rec.confidence (body d)) (Query.confidenceMin q) = true
  /\ (forall s a, given (Query.from q) s -> Date_parse s = Some a ->
        (a <= Rec.timestamp (body d))%Z)
  /\ (forall s b, given (Query.to q) s -> Date_parse s = Some b ->
        (Rec.timestamp (body d) <= b)%Z).

(** The request [q] with [includeDetections] set to [b]. *)
Definition with_detections (q : Query.t) (b : bool) : Query.t :=
  {| Query.siteId := Query.siteId q;
     Query.equipmentId := Query.equipmentId q;
     Query.from := Query.from q;
     Query.to := Query.to q;
     Query.confidenceMin := Query.confidenceMin q;
     Query.limit := Query.limit q;
     Query.includeDetections := b;
     Query.cursorTs := Query.cursorTs q;
     Query.cursorId := Query.cursorId q |}.

(** An item, and a reply, without the [detections] of the items. *)
Definition without_detections (it : item) : item :=
  {| item_id := item_id it;
     item_fields := delete "detections" (item_fields it) |}.

Definition lighten (r : reply) : reply :=
  match r with
  | SendPage p =>
      SendPage {| count := count p;
                  siteId := siteId p;
                  equipmentId := equipmentId p;
                  nextCursor := nextCursor p;
                  items := without_detections <$> items p |}
  | SendError status msg => SendError status msg
  end.

End Notions.

Module MoreSamples.
Import JS Mongo Routes.

Definition names : list string :=
  ["_id"; "siteId"; "equipmentId"; "timestamp"; "confidence"].

Definition doc5 : document := {| _id := 5%N; body := Samples.record "a" 1000 |}.
Definition doc6 : document := {| _id := 6%N; body := Samples.record "c" 2000 |}.
Definition doc7 : document := {| _id := 7%N; body := Samples.record "b" 1000 |}.

(** A document of another site. *)
Definition elsewhere : document :=
  {| _id := 8%N;
     body := {| Rec.id := Some "d"; Rec.timestamp := 1500;
                Rec.siteId := Some "s2"; Rec.siteName := Some "Other Site";
                Rec.equipmentId := Some "e1"; Rec.type := Some "CH4";
                Rec.mass := StringToNumber "1"; Rec.unit := Some "kg";
                Rec.scanDuration := StringToNumber "10";
                Rec.confidence := StringToNumber "0.9";
                Rec.numDetections := StringToNumber "2";
                Rec.detections := JArray [] |} |}.

(** The stored documents after the newest was deleted and a newer one
    was inserted. *)
Definition stored_later : list document :=
  [ doc5; doc7; {| _id := 9%N; body := Samples.record "e" 3000 |} ].

Definition cursor7 : cursor :=
  {| cursorTs := "1970-01-01T00:00:01.000Z";
     cursorId := "000000000000000000000007" |}.

(** The two pages of the stored documents, two rows a page. *)
Definition page1 : page :=
  {| count := 2; siteId := "s1"; equipmentId := "e1";
     nextCursor := Some cursor7;
     items := project names <$> [doc6; doc7] |}.

Definition page2 : page :=
  {| count := 1; siteId := "s1"; equipmentId := "e1";
     nextCursor := None;
     items := project names <$> [doc5] |}.

End MoreSamples.

(* ================================================================== *)
(** * Facts about the host conversions                                  *)
(* ================================================================== *)

Module JSFacts.
Import JS Words.

Lemma trim_start_blank l : forallb is_ws l = true -> trim_start l = [].
Proof.
  induction l as [|c l IH]; simpl; [done|].
  intros [Hc Hl]%andb_prop. rewrite Hc. auto.
Qed.

Lemma StringToNumber_blank s : blank s -> StringToNumber s = zero.
Proof.
  unfold blank, StringToNumber, trim. intros Hs.
  by rewrite (trim_start_blank _ Hs).
Qed.

(** *** Rounding never yields NaN *)

Lemma shr_1_nonneg mrs : (0 <= shr_m mrs)%Z -> (0 <= shr_m (shr_1 mrs))%Z.
Proof.
  destruct mrs as [m r s]; simpl.
  destruct m as [|[p|p|]|[p|p|]]; simpl; lia.
Qed.

Lemma iter_pos_shr_1_nonneg p : forall mrs,
  (0 <= shr_m mrs)%Z -> (0 <= shr_m (SpecFloat.iter_pos shr_1 p mrs))%Z.
Proof.
  induction p as [p IH|p IH|]; intros mrs Hm; simpl;
    auto using shr_1_nonneg.
Qed.

Lemma shr_fexp_nonneg m e l :
  (0 <= m)%Z -> (0 <= shr_m (fst (shr_fexp prec emax m e l)))%Z.
Proof.
  intros Hm. unfold shr_fexp, shr.
  assert (0 <= shr_m (shr_record_of_loc m l))%Z as H0.
  { destruct l as [|[]]; simpl; lia. }
  destruct (_ - e)%Z; simpl; auto using iter_pos_shr_1_nonneg.
Qed.

Lemma round_nearest_even_nonneg m l :
  (0 <= m)%Z -> (0 <= round_nearest_even m l)%Z.
Proof.
  intros Hm. destruct l as [|[]]; simpl; try lia.
  destruct (Z.even m); lia.
Qed.

Lemma binary_round_aux_not_NaN sx mx ex lx :
  (0 <= mx)%Z -> isNaN (binary_round_aux prec emax sx mx ex lx) = false.
Proof.
  intros Hm. unfold binary_round_aux.
  pose proof (shr_fexp_nonneg mx ex lx Hm) as H1.
  destruct (shr_fexp prec emax mx ex lx) as [mrs' e']. simpl in H1.
  pose proof (shr_fexp_nonneg _ e' loc_Exact
                (round_nearest_even_nonneg _ (loc_of_shr_record mrs') H1)) as H2.
  destruct (shr_fexp prec emax _ e' loc_Exact) as [mrs'' e'']. simpl in H2.
  destruct (shr_m mrs'') as [|m|m]; [done| |lia].
  by destruct (_ <=? _)%Z.
Qed.

Lemma binary_round_not_NaN sx mx ex :
  isNaN (binary_round prec emax sx mx ex) = false.
Proof.
  unfold binary_round. destruct (shl_align mx ex _) as [mz ez].
  by apply binary_round_aux_not_NaN.
Qed.

Lemma SFdiv_core_binary_nonneg m1 e1 m2 e2 :
  (0 <= m1)%Z -> (0 < m2)%Z ->
  (0 <= fst (fst (SFdiv_core_binary prec emax m1 e1 m2 e2)))%Z.
Proof.
  intros H1 H2. unfold SFdiv_core_binary.
  set (s := (e1 - e2 - _)%Z).
  set (m' := match s with Z0 => m1 | Zpos _ => Z.shiftl m1 s | Zneg _ => 0%Z end).
  assert (0 <= m')%Z as Hm'.
  { subst m'. destruct s; [lia| |lia]. by apply Z.shiftl_nonneg. }
  pose proof (Z.div_pos m' m2 Hm' H2) as Hq. unfold Z.div in Hq.
  by destruct (Z.div_eucl m' m2).
Qed.

Lemma number_of_decimal_not_NaN neg m e :
  isNaN (number_of_decimal neg m e) = false.
Proof.
  unfold number_of_decimal. destruct m as [|p]; [done|].
  destruct (0 <=? e)%Z eqn:He.
  - destruct (Z.pos p * 10 ^ e)%Z; auto using binary_round_not_NaN.
  - pose proof (SFdiv_core_binary_nonneg (Z.pos p) 0 (10 ^ (- e)) 0) as Hq.
    destruct (SFdiv_core_binary _ _ _ _ _ _) as [[q e'] l].
    apply binary_round_aux_not_NaN, Hq; [lia|].
    apply Z.pow_pos_nonneg; lia.
Qed.

Lemma parseInt10_leading v :
  parseInt10 v =
    match leading_int v with
    | (_, []) => NaN
    | (neg, ds) => number_of_decimal neg (digits_value 10 ds) 0
    end.
Proof.
  unfold parseInt10, leading_int, strip_sign.
  destruct (trim_start _) as [|c l] eqn:Hl.
  - reflexivity.
  - destruct (bool_decide (c = "-"%char)) eqn:E1;
      [apply bool_decide_eq_true in E1 as ->;
       by destruct (span_digits 10 l) as [[|d ds] rest]|].
    destruct (bool_decide (c = "+"%char)) eqn:E2;
      [apply bool_decide_eq_true in E2 as ->;
       by destruct (span_digits 10 l) as [[|d ds] rest]|].
    apply bool_decide_eq_false in E1, E2.
    assert (match c :: l with
            | "-"%char :: r => (true, r)
            | "+"%char :: r => (false, r)
            | _ => (false, c :: l)
            end = (false, c :: l)) as ->.
    { destruct c as [[] [] [] [] [] [] [] []]; try reflexivity; congruence. }
    by destruct (span_digits 10 (c :: l)) as [[|d ds] rest].
Qed.

Lemma trim_start_app ws l :
  forallb is_ws ws = true ->
  (forall c, head l = Some c -> is_ws c = false) ->
  trim_start (ws ++ l) = l.
Proof.
  intros Hws Hl. induction ws as [|c ws IH].
  - destruct l as [|c l]; [done|]. cbn [app trim_start].
    by rewrite (Hl c eq_refl).
  - cbn [forallb] in Hws. apply andb_prop in Hws as [Hc Hws].
    cbn [app trim_start]. rewrite Hc. auto.
Qed.

Lemma span_digits_app r cs ds rest :
  Forall2 (fun c d => radix_digit r c = Some d) cs ds ->
  (forall c, head rest = Some c -> radix_digit r c = None) ->
  span_digits r (cs ++ rest) = (ds, rest).
Proof.
  intros Hcs Hrest. induction Hcs as [|c d cs ds Hc _ IH].
  - destruct rest as [|c rest]; [done|]. cbn [app span_digits].
    by rewrite (Hrest c eq_refl).
  - cbn [app span_digits]. by rewrite Hc, IH.
Qed.

Lemma digit_not_ws c d : radix_digit 10 c = Some d -> is_ws c = false.
Proof.
  destruct c as [[] [] [] [] [] [] [] []]; vm_compute; congruence.
Qed.

Lemma digit_not_sign c d :
  radix_digit 10 c = Some d -> forall l, strip_sign (c :: l) = (false, c :: l).
Proof.
  destruct c as [[] [] [] [] [] [] [] []]; vm_compute; congruence.
Qed.

(** What [parseInt] reads of a text made of white space, a sign or none,
    decimal digits and a rest that does not go on with a digit: the sign
    and the digits. *)
Lemma leading_int_reads ws (neg : bool) cs ds rest :
  forallb is_ws ws = true ->
  Forall2 (fun c d => radix_digit 10 c = Some d) cs ds ->
  (neg = false -> cs <> []) ->
  (forall c, head rest = Some c -> radix_digit 10 c = None) ->
  leading_int
    (Some (string_of_list_ascii
             (ws ++ (if neg then ["-"%char] else []) ++ cs ++ rest)))
  = (neg, ds).
Proof.
  intros Hws Hcs Hne Hrest. unfold leading_int. simpl ToString.
  rewrite list_ascii_of_string_of_list_ascii, trim_start_app; [|done|].
  - destruct neg; simpl.
    + by rewrite (span_digits_app _ _ _ _ Hcs Hrest).
    + destruct Hcs as [|c d cs ds Hc Hcs]; [by destruct Hne|].
      change ((c :: cs) ++ rest) with (c :: cs ++ rest).
      rewrite (digit_not_sign c d Hc).
      change (c :: cs ++ rest) with ((c :: cs) ++ rest).
      rewrite (span_digits_app 10 (c :: cs) (d :: ds) rest);
        [done|by constructor|done].
  - destruct neg; simpl; [by intros c [= <-]|].
    destruct Hcs as [|c d cs ds Hc Hcs]; [by destruct Hne|]. simpl.
    intros c' [= <-]. by eapply digit_not_ws.
Qed.

End JSFacts.

(* ================================================================== *)
(** * The record normalizer                                             *)
(* ================================================================== *)

Module NormalizerFacts.
Import JS Words Seed JSFacts.

Section with_host.
Context `{Host}.

Lemma toNumber_Ok v n :
  toNumber v = Ok n <-> n = ToNumber v /\ isNaN n = false.
Proof.
  unfold toNumber. destruct (isNaN (ToNumber v)) eqn:E; split.
  - discriminate.
  - intros [-> ?]. congruence.
  - by intros [= <-].
  - by intros [-> _].
Qed.

Lemma toNumber_NaN v :
  isNaN (ToNumber v) = true ->
  toNumber v = Throw (Error ("Invalid number: " +:+ ToString v)).
Proof. unfold toNumber. by intros ->. Qed.

Lemma toInt_leading v :
  toInt v =
    match leading_int v with
    | (_, []) => Throw (Error ("Invalid int: " +:+ ToString v))
    | (neg, ds) => Ok (number_of_decimal neg (digits_value 10 ds) 0)
    end.
Proof.
  unfold toInt. rewrite parseInt10_leading.
  destruct (leading_int v) as [neg [|d ds]]; [done|].
  by rewrite number_of_decimal_not_NaN.
Qed.

Lemma toInt_Ok v n :
  toInt v = Ok n ->
  (leading_int v).2 <> []
  /\ n = number_of_decimal (leading_int v).1
           (digits_value 10 (leading_int v).2) 0.
Proof.
  rewrite toInt_leading. destruct (leading_int v) as [neg [|d ds]]; [done|].
  by intros [= <-].
Qed.

Lemma toInt_no_digit v :
  (leading_int v).2 = [] ->
  toInt v = Throw (Error ("Invalid int: " +:+ ToString v)).
Proof.
  rewrite toInt_leading. destruct (leading_int v) as [neg ds]. simpl.
  by intros ->.
Qed.

(** What an accepted row went through, conversion by conversion. *)
Lemma mapRow_Ok row r :
  mapRow row = Ok r ->
  toDate (row !! "timestamp") = Ok (Rec.timestamp r)
  /\ toNumber (row !! "mass") = Ok (Rec.mass r)
  /\ toInt (row !! "scanDuration") = Ok (Rec.scanDuration r)
  /\ toNumber (row !! "confidence") = Ok (Rec.confidence r)
  /\ toInt (row !! "numDetections") = Ok (Rec.numDetections r).
Proof.
  unfold mapRow.
  destruct (toDate _) as [ts|]; [|done].
  destruct (toNumber (row !! "mass")) as [m|]; [|done].
  destruct (toInt (row !! "scanDuration")) as [sd|]; [|done].
  destruct (toNumber (row !! "confidence")) as [c|]; [|done].
  destruct (toInt (row !! "numDetections")) as [nd|]; [|done].
  simpl. by intros [= <-].
Qed.

Lemma mapRow_complete row ts m sd c nd :
  toDate (row !! "timestamp") = Ok ts ->
  toNumber (row !! "mass") = Ok m ->
  toInt (row !! "scanDuration") = Ok sd ->
  toNumber (row !! "confidence") = Ok c ->
  toInt (row !! "numDetections") = Ok nd ->
  exists r, mapRow row = Ok r
            /\ Rec.timestamp r = ts /\ Rec.mass r = m /\ Rec.scanDuration r = sd
            /\ Rec.confidence r = c /\ Rec.numDetections r = nd.
Proof.
  intros Hts Hm Hsd Hc Hnd. unfold mapRow.
  rewrite Hts, Hm, Hsd, Hc, Hnd. simpl. eauto 10.
Qed.

(** A row is refused as soon as one of its conversions throws. *)
Lemma mapRow_Throw row :
  (forall r, mapRow row <> Ok r) -> exists e, mapRow row = Throw e.
Proof. destruct (mapRow row) as [r|e]; [intros Hr; by destruct (Hr r)|eauto]. Qed.

Lemma on_data_refused {C} `{Collection C} env row e (v : vars) (c : C) :
  mapRow row = Throw e ->
  on_data env row v c =
    Normal {| batch := batch v; inserted := inserted v;
              skipped := skipped v + 1 |} c.
Proof. unfold on_data. by intros ->. Qed.

End with_host.

(** C8, as stated, fails: a mass that parses to Infinity is not finite,
    and the row is accepted with it. *)
Lemma infinite_mass_accepted :
  ~ (isFinite (ToNumber (Samples.row_with "mass" "Infinity" !! "mass")) = false ->
     exists e, mapRow (H := IsoHost.host) (Samples.row_with "mass" "Infinity")
               = Throw e).
Proof.
  intros Hclaim. destruct Hclaim as [e He]; [reflexivity|].
  vm_compute in He. discriminate.
Qed.

(** C8, amended: the normalizer takes mass and confidence through
    [Number(..)] and refuses the row exactly on NaN.  A row whose mass or
    confidence is NaN is refused, counted as skipped and kept out of the
    batch; an accepted row carries the parsed values, which are not NaN
    but may be infinite. *)
Theorem numeric_fields_refused_on_NaN `{Host} {C} `{Collection C}
    env (row : Row) (v : vars) (c : C) :
  (isNaN (ToNumber (row !! "mass")) = true
   \/ isNaN (ToNumber (row !! "confidence")) = true ->
   (exists e, mapRow row = Throw e)
   /\ on_data env row v c =
        Normal {| batch := batch v; inserted := inserted v;
                  skipped := skipped v + 1 |} c)
  /\ (forall r, mapRow row = Ok r ->
        Rec.mass r = ToNumber (row !! "mass") /\ isNaN (Rec.mass r) = false
        /\ Rec.confidence r = ToNumber (row !! "confidence")
        /\ isNaN (Rec.confidence r) = false).
Proof.
  split.
  - intros Hnan.
    assert (exists e, mapRow row = Throw e) as [e He].
    { apply mapRow_Throw. intros r (_ & Hm & _ & Hc & _)%mapRow_Ok.
      apply toNumber_Ok in Hm as [-> Hm], Hc as [-> Hc].
      destruct Hnan; congruence. }
    split; [eauto|]. by eapply on_data_refused.
  - intros r (_ & Hm & _ & Hc & _)%mapRow_Ok.
    apply toNumber_Ok in Hm as [? ?], Hc as [? ?]. done.
Qed.

Lemma numeric_fields_refused_on_NaN_witness :
  isNaN (ToNumber (Samples.row_with "mass" "12abc" !! "mass")) = true
  /\ on_data (H := IsoHost.host) None (Samples.row_with "mass" "12abc")
       {| batch := []; inserted := 0; skipped := 0 |} Samples.empty_coll
     = Normal {| batch := []; inserted := 0; skipped := 0 + 1 |} Samples.empty_coll.
Proof.
  split; [reflexivity|].
  apply (numeric_fields_refused_on_NaN (H := IsoHost.host) None
           (Samples.row_with "mass" "12abc")).
  left. reflexivity.
Defined.

(** C9, as stated, fails: "12.5" is not an integer, and the row is
    accepted, with scanDuration 12. *)
Lemma decimal_scanDuration_accepted :
  ~ (~ integer_text "12.5" ->
     exists e, mapRow (H := IsoHost.host) (Samples.row_with "scanDuration" "12.5")
               = Throw e).
Proof.
  intros Hclaim. destruct Hclaim as [e He].
  - intros (d & ds & Hs). vm_compute in Hs. discriminate.
  - vm_compute in He. discriminate.
Qed.

(** C9, amended: the normalizer takes scanDuration and numDetections
    through [parseInt(.., 10)] and refuses the row exactly when, after the
    leading white space and an optional sign, the raw text does not start
    with a decimal digit.  Such a row is refused, counted as skipped and
    kept out of the batch; an accepted row carries the value of the leading
    run of digits, whatever follows it. *)
Theorem integer_fields_read_leading_digits `{Host} {C} `{Collection C}
    env (row : Row) (v : vars) (c : C) :
  ((leading_int (row !! "scanDuration")).2 = []
   \/ (leading_int (row !! "numDetections")).2 = [] ->
   (exists e, mapRow row = Throw e)
   /\ on_data env row v c =
        Normal {| batch := batch v; inserted := inserted v;
                  skipped := skipped v + 1 |} c)
  /\ (forall r, mapRow row = Ok r ->
        Rec.scanDuration r =
          number_of_decimal (leading_int (row !! "scanDuration")).1
            (digits_value 10 (leading_int (row !! "scanDuration")).2) 0
        /\ Rec.numDetections r =
          number_of_decimal (leading_int (row !! "numDetections")).1
            (digits_value 10 (leading_int (row !! "numDetections")).2) 0).
Proof.
  split.
  - intros Hno.
    assert (exists e, mapRow row = Throw e) as [e He].
    { apply mapRow_Throw. intros r (_ & _ & Hsd & _ & Hnd)%mapRow_Ok.
      apply toInt_Ok in Hsd as [? _], Hnd as [? _]. by destruct Hno. }
    split; [eauto|]. by eapply on_data_refused.
  - intros r (_ & _ & Hsd & _ & Hnd)%mapRow_Ok.
    apply toInt_Ok in Hsd as [_ ?], Hnd as [_ ?]. done.
Qed.

Lemma integer_fields_read_leading_digits_witness :
  (leading_int (Samples.row_with "scanDuration" "ten" !! "scanDuration")).2 = []
  /\ on_data (H := IsoHost.host) None (Samples.row_with "scanDuration" "ten")
       {| batch := []; inserted := 0; skipped := 0 |} Samples.empty_coll
     = Normal {| batch := []; inserted := 0; skipped := 0 + 1 |} Samples.empty_coll.
Proof.
  split; [reflexivity|].
  apply (integer_fields_read_leading_digits (H := IsoHost.host) None
           (Samples.row_with "scanDuration" "ten")).
  left. reflexivity.
Defined.

(** C10: a mass or confidence column that is empty or all white space
    converts to 0 instead of failing; when the other fields parse, the row
    is normalized with that field equal to 0 and joins the batch. *)
Theorem blank_numeric_field_is_zero `{Host} {C} `{Collection C}
    env (row : Row) (s : string) ts sd nd (v : vars) (c : C) :
  blank s ->
  toDate (row !! "timestamp") = Ok ts ->
  toInt (row !! "scanDuration") = Ok sd ->
  toInt (row !! "numDetections") = Ok nd ->
  toNumber (Some s) = Ok zero
  /\ (forall x, row !! "mass" = Some s ->
        toNumber (row !! "confidence") = Ok x ->
        exists r, mapRow row = Ok r /\ Rec.mass r = zero
                  /\ Rec.confidence r = x
                  /\ on_data env row v c =
                       let v' := {| batch := batch v ++ [r];
                                    inserted := inserted v;
                                    skipped := skipped v |} in
                       if geb (number_of_N (N.of_nat (length (batch v'))))
                              (BATCH_SIZE env)
                       then flushBatch v' c else Normal v' c)
  /\ (forall x, row !! "confidence" = Some s ->
        toNumber (row !! "mass") = Ok x ->
        exists r, mapRow row = Ok r /\ Rec.confidence r = zero
                  /\ Rec.mass r = x
                  /\ on_data env row v c =
                       let v' := {| batch := batch v ++ [r];
                                    inserted := inserted v;
                                    skipped := skipped v |} in
                       if geb (number_of_N (N.of_nat (length (batch v'))))
                              (BATCH_SIZE env)
                       then flushBatch v' c else Normal v' c).
Proof.
  intros Hs Hts Hsd Hnd.
  assert (toNumber (Some s) = Ok zero) as Hz.
  { apply toNumber_Ok. simpl. by rewrite (StringToNumber_blank _ Hs). }
  split; [done|]. split.
  - intros x Hm Hc. rewrite <- Hm in Hz.
    destruct (mapRow_complete row _ _ _ _ _ Hts Hz Hsd Hc Hnd)
      as (r & Hr & _ & ? & _ & ? & _).
    exists r. repeat split; try done. unfold on_data. by rewrite Hr.
  - intros x Hc Hm. rewrite <- Hc in Hz.
    destruct (mapRow_complete row _ _ _ _ _ Hts Hm Hsd Hz Hnd)
      as (r & Hr & _ & ? & _ & ? & _).
    exists r. repeat split; try done. unfold on_data. by rewrite Hr.
Qed.

Lemma blank_numeric_field_is_zero_witness :
  toNumber (Some "  ") = Ok zero
  /\ exists r, mapRow (H := IsoHost.host) (Samples.row_with "mass" "  ") = Ok r
               /\ Rec.mass r = zero.
Proof.
  destruct (blank_numeric_field_is_zero (H := IsoHost.host) None
              (Samples.row_with "mass" "  ") "  " 1767225600000
              (StringToNumber "10") (StringToNumber "2")
              {| batch := []; inserted := 0; skipped := 0 |} Samples.empty_coll)
    as (Hz & Hm & _); [reflexivity..|].
  split; [exact Hz|].
  destruct (Hm (StringToNumber "0.9")) as (r & Hr & Hmass & _);
    [reflexivity..|].
  exists r. split; [exact Hr|exact Hmass].
Defined.

End NormalizerFacts.

(* ================================================================== *)
(** * The batch flusher and the ingestion run                           *)
(* ================================================================== *)

Module LoaderFacts.
Import JS Words Seed.

Section with_collection.
Context `{Host} {C : Type} `{Collection C} `{Client C}.
Variable env : option string.

Lemma flushBatch_empty (v : vars) (c : C) :
  batch v = [] -> flushBatch v c = Normal v c.
Proof. unfold flushBatch. by intros ->. Qed.

Lemma flushBatch_resolved (v : vars) (c c' : C) n :
  batch v <> [] -> insertMany c (batch v) = (Ok n, c') ->
  flushBatch v c =
    Normal {| batch := []; inserted := inserted v + n; skipped := skipped v |} c'.
Proof.
  unfold flushBatch. destruct (batch v) as [|d docs]; [done|].
  by intros _ ->.
Qed.

Lemma flushBatch_absorbed (v : vars) (c c' : C) e wes :
  batch v <> [] -> insertMany c (batch v) = (Throw e, c') ->
  writeErrors e = Some wes ->
  flushBatch v c =
    Normal {| batch := [];
              inserted := inserted v
                + first_truthy (result e ≫= nInserted) (result e ≫= insertedCount);
              skipped := skipped v
                + Z.of_nat (length (filter (fun w => code w = 11000%Z) wes)) |} c'.
Proof.
  unfold flushBatch. destruct (batch v) as [|d docs]; [done|].
  by intros _ -> ->.
Qed.

Lemma flushBatch_fatal (v : vars) (c c' : C) e :
  batch v <> [] -> insertMany c (batch v) = (Throw e, c') ->
  writeErrors e = None ->
  flushBatch v c =
    Abrupt e {| batch := []; inserted := inserted v; skipped := skipped v |} c'.
Proof.
  unfold flushBatch. destruct (batch v) as [|d docs]; [done|].
  by intros _ -> ->.
Qed.

Lemma consume_app rows1 rows2 (v : vars) (c : C) :
  consume env (rows1 ++ rows2) v c =
    match consume env rows1 v c with
    | Normal v' c' => consume env rows2 v' c'
    | Abrupt e v' c' => Abrupt e v' c'
    end.
Proof.
  revert v c. induction rows1 as [|row rows1 IH]; intros v c; simpl; [done|].
  destruct (on_data env row v c); [apply IH|done].
Qed.

(** ** The rows against the end of the input *)

(** With no flush in flight at the end of the input, the rows are taken
    as [consume] takes them, and the final flush follows. *)
Lemma stream_None rows : forall (v : vars) (c : C),
  stream env None rows v c =
    match consume env rows v c with
    | Normal v' c' =>
        match flushBatch v' c' with
        | Normal v'' c'' => Done v'' [] [] c''
        | Abrupt e v'' c'' => Failed e v'' c''
        end
    | Abrupt e v' c' => Failed e v' c'
    end.
Proof.
  induction rows as [|row rows IH]; intros v c; [done|].
  cbn [stream consume]. unfold on_data.
  destruct (mapRow row) as [r|e]; [|apply IH].
  destruct (geb _ _); [|apply IH].
  cbn [fmap option_fmap option_map].
  destruct (flushBatch _ c); [apply IH|done].
Qed.

(** Over rows that [consume] takes to their end, either the input ends
    while one of their flushes is in flight, or the run stands behind them
    as [consume] leaves it. *)
Lemma stream_consume rows1 rest : forall overtaken (v : vars) (c : C) v1 c1,
  consume env rows1 v c = Normal v1 c1 ->
  ended_in_flight (stream env overtaken (rows1 ++ rest) v c)
  \/ exists overtaken',
       stream env overtaken (rows1 ++ rest) v c = stream env overtaken' rest v1 c1
       /\ (overtaken = None -> overtaken' = None).
Proof.
  induction rows1 as [|row rows1 IH]; intros overtaken v c v1 c1.
  { intros [= <- <-]. right. by exists overtaken. }
  cbn [consume app stream]. unfold on_data.
  destruct (mapRow row) as [r|e]; [|apply IH].
  destruct (geb _ _); [|apply IH].
  destruct overtaken as [[|k]|]; cbn [fmap option_fmap option_map pred].
  - intros _. left. eexists _, _, _, _. split; [done|]. by destruct (batch v).
  - destruct (flushBatch _ c) as [v2 c2|]; [|done]. intros Hrest.
    destruct (IH (Some k) _ _ _ _ Hrest) as [?|(o & -> & _)];
      [by left|].
    right. by exists o.
  - destruct (flushBatch _ c) as [v2 c2|]; [|done]. intros Hrest.
    destruct (IH None _ _ _ _ Hrest) as [?|(o & -> & Ho)]; [by left|].
    right. exists o. split; [done|]. intros _. by apply Ho.
Qed.

(** A flush of the listener that ends abruptly: the run is aborted with
    the thrown value, no further row is read and the final flush is not
    made, unless the input had ended while a flush was in flight. *)
Lemma stream_aborted overtaken row rows2 (v1 : vars) (c1 c' : C) e v' :
  on_data env row v1 c1 = Abrupt e v' c' ->
  (ended_in_flight (stream env overtaken (row :: rows2) v1 c1)
   \/ stream env overtaken (row :: rows2) v1 c1 = Failed e v' c')
  /\ (overtaken = None ->
      stream env overtaken (row :: rows2) v1 c1 = Failed e v' c').
Proof.
  cbn [stream]. unfold on_data.
  destruct (mapRow row) as [r|e0]; [|done].
  destruct (geb _ _); [|done]. intros Hflush.
  destruct overtaken as [[|k]|]; rewrite ?Hflush.
  - split; [|done]. left. eexists _, _, _, _. split; [done|].
    by destruct (batch v1).
  - split; [by right|done].
  - split; [by right|done].
Qed.

Lemma main_started overtaken rows (c0 c : C) u :
  connect c0 = Ok u -> createIndexes c0 ensureIndexes = Ok c ->
  main env overtaken rows c0
  = stream env overtaken rows {| batch := []; inserted := 0; skipped := 0 |} c.
Proof. intros Hc Hi. unfold main. by rewrite Hc, Hi. Qed.

(** ** The counters *)

Section accounting.
Variable Inv : C -> Prop.
Hypothesis insertMany_accounted : forall c docs,
  Inv c -> docs <> [] ->
  accounted docs (insertMany c docs).1 /\ Inv (insertMany c docs).2.

Lemma length_filter_all {A} (P : A -> Prop) `{forall x, Decision (P x)} (l : list A) :
  Forall P l -> length (filter P l) = length l.
Proof.
  induction 1 as [|x l Hx Hl IH]; [done|].
  rewrite filter_cons_True by done. simpl. by rewrite IH.
Qed.

Lemma flushBatch_accounted (v : vars) (c : C) :
  Inv c ->
  exists v' c', flushBatch v c = Normal v' c' /\ Inv c' /\ batch v' = []
    /\ (inserted v' + skipped v'
        = inserted v + skipped v + Z.of_nat (length (batch v)))%Z.
Proof.
  intros Hc. destruct (decide (batch v = [])) as [Hb|Hb].
  - exists v, c. rewrite flushBatch_empty by done. rewrite Hb. simpl.
    repeat split; [done..|lia].
  - destruct (insertMany_accounted c (batch v) Hc Hb) as [Hacc Hinv].
    destruct (insertMany c (batch v)) as [[n|e] c'] eqn:Hins; simpl in *.
    + eexists _, c'. rewrite (flushBatch_resolved _ _ _ _ Hb Hins).
      repeat split; [done..|simpl; lia].
    + destruct Hacc as (wes & Hwes & Hdup & Hcount).
      eexists _, c'. rewrite (flushBatch_absorbed _ _ _ _ _ Hb Hins Hwes).
      repeat split; [done..|]. simpl. rewrite (length_filter_all _ _ Hdup). lia.
Qed.

Lemma on_data_accounted row (v : vars) (c : C) :
  Inv c ->
  exists v' c', on_data env row v c = Normal v' c' /\ Inv c'
    /\ (inserted v' + skipped v' + Z.of_nat (length (batch v'))
        = inserted v + skipped v + Z.of_nat (length (batch v)) + 1)%Z.
Proof.
  intros Hc. unfold on_data. destruct (mapRow row) as [r|e].
  - destruct (geb _ _).
    + destruct (flushBatch_accounted
                  {| batch := batch v ++ [r]; inserted := inserted v;
                     skipped := skipped v |} c Hc)
        as (v' & c' & -> & Hc' & Hb & Hsum).
      exists v', c'. simpl in Hsum. rewrite length_app in Hsum. simpl in Hsum.
      rewrite Hb. simpl. repeat split; [done|lia].
    + eexists _, c. repeat split; [done|]. simpl. rewrite length_app. simpl. lia.
  - eexists _, c. repeat split; [done|]. simpl. lia.
Qed.

Lemma consume_accounted rows : forall (v : vars) (c : C),
  Inv c ->
  exists v' c', consume env rows v c = Normal v' c' /\ Inv c'
    /\ (inserted v' + skipped v' + Z.of_nat (length (batch v'))
        = inserted v + skipped v + Z.of_nat (length (batch v))
          + Z.of_nat (length rows))%Z.
Proof.
  induction rows as [|row rows IH]; intros v c Hc; simpl.
  - exists v, c. repeat split; [done|lia].
  - destruct (on_data_accounted row v c Hc) as (v1 & c1 & -> & Hc1 & Hsum1).
    destruct (IH v1 c1 Hc1) as (v' & c' & -> & Hc' & Hsum).
    exists v', c'. repeat split; [done|lia].
Qed.

(** Where the rows are when DONE is logged: counted as inserted or
    skipped, in flight, or still held by the parser. *)
Lemma stream_accounted rows : forall overtaken (v : vars) (c : C),
  Inv c ->
  exists v' flight unread c',
    stream env overtaken rows v c = Done v' flight unread c'
    /\ batch v' = []
    /\ (inserted v' + skipped v'
        + Z.of_nat (length flight) + Z.of_nat (length unread)
        = inserted v + skipped v + Z.of_nat (length (batch v))
          + Z.of_nat (length rows))%Z
    /\ (overtaken = None -> flight = [])
    /\ (flight = [] -> unread = []).
Proof.
  induction rows as [|row rows IH]; intros overtaken v c Hc; cbn [stream].
  - destruct (flushBatch_accounted v c Hc) as (v' & c' & -> & _ & Hb & Hsum).
    exists v', [], [], c'. repeat split; [done|simpl; lia].
  - destruct (mapRow row) as [r|e].
    + destruct (geb _ _).
      * destruct (flushBatch_accounted
                    {| batch := batch v ++ [r]; inserted := inserted v;
                       skipped := skipped v |} c Hc)
          as (v1 & c1 & Hflush & Hc1 & Hb1 & Hsum1).
        cbn [batch inserted skipped] in Hsum1.
        rewrite length_app in Hsum1. simpl in Hsum1.
        destruct overtaken as [[|k]|]; cbn [fmap option_fmap option_map pred].
        -- eexists _, _, _, c. split; [done|]. cbn [batch inserted skipped].
           split; [done|]. split; [rewrite length_app; simpl; lia|].
           split; [done|]. intros Hnil. by destruct (batch v).
        -- rewrite Hflush.
           destruct (IH (Some k) v1 c1 Hc1)
             as (v' & fl & un & c' & -> & Hb & Hsum & _ & Hun).
           exists v', fl, un, c'. rewrite Hb1 in Hsum. simpl in Hsum.
           repeat split; [done| |done|done]. simpl. lia.
        -- rewrite Hflush.
           destruct (IH None v1 c1 Hc1)
             as (v' & fl & un & c' & -> & Hb & Hsum & Hfl & Hun).
           exists v', fl, un, c'. rewrite Hb1 in Hsum. simpl in Hsum.
           repeat split; [done| |done|done]. simpl. lia.
      * destruct (IH overtaken
                    {| batch := batch v ++ [r]; inserted := inserted v;
                       skipped := skipped v |} c Hc)
          as (v' & fl & un & c' & -> & Hb & Hsum & Hfl & Hun).
        exists v', fl, un, c'. cbn [batch inserted skipped] in Hsum.
        rewrite length_app in Hsum. simpl in Hsum.
        repeat split; [done| |done|done]. simpl. lia.
    + destruct (IH overtaken
                  {| batch := batch v; inserted := inserted v;
                     skipped := skipped v + 1 |} c Hc)
        as (v' & fl & un & c' & -> & Hb & Hsum & Hfl & Hun).
      exists v', fl, un, c'. cbn [batch inserted skipped] in Hsum.
      repeat split; [done| |done|done]. simpl. lia.
Qed.

(** C5, amended: when the server is reached, the indexes are built and
    every answer of the collection accounts for its batch (each document
    inserted or refused as a duplicate), the run over any input ends with
    DONE and an empty batch; and when no flush of the listener is in flight
    at that moment, as is the case when the input ends with none in flight,
    no row is left unread and the one counter of skipped rows, which takes
    both the rows the normalizer refused and the duplicates, adds up with
    the inserted ones to the rows seen. *)
Theorem rows_accounted_for (overtaken : option nat) (rows : list Row)
    (c0 c : C) (u : unit) :
  connect c0 = Ok u -> createIndexes c0 ensureIndexes = Ok c -> Inv c ->
  exists v flight unread c',
    main env overtaken rows c0 = Done v flight unread c' /\ batch v = []
    /\ (overtaken = None -> flight = [])
    /\ (flight = [] ->
        unread = []
        /\ (inserted v + skipped v = Z.of_nat (length rows))%Z).
Proof.
  intros Hconnect Hindexes Hc. rewrite (main_started _ _ _ _ _ Hconnect Hindexes).
  destruct (stream_accounted rows overtaken
              {| batch := []; inserted := 0; skipped := 0 |} c Hc)
    as (v & fl & un & c' & -> & Hb & Hsum & Hfl & Hun).
  exists v, fl, un, c'. split; [done|]. split; [done|]. split; [done|].
  intros Hnil. specialize (Hun Hnil). subst fl un. split; [done|].
  simpl in Hsum. lia.
Qed.

End accounting.

(** C4, amended: a bulk write that fails with a value carrying no
    [writeErrors] ends the flush abruptly with that value, the counters
    untouched; and whether the flush is one of the listener or the final
    one, the run is then aborted with that value, no further row read and
    no final flush made, unless the input had ended while a flush of the
    listener was in flight.  A failure that carries [writeErrors] is
    absorbed whatever the codes are, its entries of code 11000 added to the
    skipped counter and its reported insertions to the inserted one. *)
Theorem flush_failure_handling (v : vars) (c c' : C) (e : exn) :
  batch v <> [] ->
  insertMany c (batch v) = (Throw e, c') ->
  (writeErrors e = None ->
     let aborted :=
       Failed e {| batch := []; inserted := inserted v; skipped := skipped v |}
         c' in
     flushBatch v c =
       Abrupt e {| batch := []; inserted := inserted v; skipped := skipped v |} c'
     /\ (forall overtaken rows1 row rows2 c00 c0 v1 u,
           connect c00 = Ok u -> createIndexes c00 ensureIndexes = Ok c0 ->
           consume env rows1 {| batch := []; inserted := 0; skipped := 0 |} c0
             = Normal v1 c ->
           on_data env row v1 c = flushBatch v c ->
           (ended_in_flight (main env overtaken (rows1 ++ row :: rows2) c00)
            \/ main env overtaken (rows1 ++ row :: rows2) c00 = aborted)
           /\ (overtaken = None ->
               main env overtaken (rows1 ++ row :: rows2) c00 = aborted))
     /\ (forall overtaken rows c00 c0 u,
           connect c00 = Ok u -> createIndexes c00 ensureIndexes = Ok c0 ->
           consume env rows {| batch := []; inserted := 0; skipped := 0 |} c0
             = Normal v c ->
           (ended_in_flight (main env overtaken rows c00)
            \/ main env overtaken rows c00 = aborted)
           /\ (overtaken = None -> main env overtaken rows c00 = aborted)))
  /\ (forall wes, writeErrors e = Some wes ->
        flushBatch v c =
          Normal {| batch := [];
                    inserted := inserted v
                      + first_truthy (result e ≫= nInserted)
                                     (result e ≫= insertedCount);
                    skipped := skipped v
                      + Z.of_nat (length (filter (fun w => code w = 11000%Z) wes)) |}
                 c').
Proof.
  intros Hb Hins. split.
  - intros He aborted. pose proof (flushBatch_fatal _ _ _ _ Hb Hins He) as Hf.
    split; [done|]. split.
    + intros overtaken rows1 row rows2 c00 c0 v1 u Hconnect Hindexes Hpre Hrow.
      rewrite Hf in Hrow.
      rewrite (main_started _ _ _ _ _ Hconnect Hindexes).
      destruct (stream_consume rows1 (row :: rows2) overtaken _ _ _ _ Hpre)
        as [Hflight|(o & -> & Ho)].
      * split; [by left|]. intros ->.
        destruct Hflight as (v2 & fl & un & c2 & Hdone & Hfl).
        rewrite stream_None, consume_app, Hpre in Hdone. cbn [consume] in Hdone.
        by rewrite Hrow in Hdone.
      * destruct (stream_aborted o row rows2 _ _ _ _ _ Hrow) as [Hor Hnone].
        split; [done|]. intros Hn. by apply Hnone, Ho.
    + intros overtaken rows c00 c0 u Hconnect Hindexes Hrows.
      rewrite (main_started _ _ _ _ _ Hconnect Hindexes).
      assert (stream env None rows
                {| batch := []; inserted := 0; skipped := 0 |} c0 = aborted)
        as Hnone by (by rewrite stream_None, Hrows, Hf).
      split; [|by intros ->].
      destruct (stream_consume rows [] overtaken _ _ _ _ Hrows)
        as [Hflight|(o & Ho & _)]; rewrite app_nil_r in *; [by left|].
      right. rewrite Ho. cbn [stream]. by rewrite Hf.
  - intros wes He. by apply flushBatch_absorbed.
Qed.

End with_collection.

(** ** The collection with the unique index *)

Lemma insert_each_accounted valid docs : forall i have es have',
  (forall r, valid r = true) ->
  insert_each valid i docs have = (es, have') ->
  Forall (fun w => code w = 11000%Z) es
  /\ (length es + length have' = length docs + length have)%nat.
Proof.
  induction docs as [|d docs IH]; intros i have es have' Hv; simpl.
  - intros [= <- <-]. by split.
  - rewrite Hv. simpl. case_bool_decide.
    + destruct (insert_each valid (S i) docs have) as [es1 have1] eqn:E.
      intros [= <- <-]. destruct (IH _ _ _ _ Hv E) as [IH1 IH2].
      split; [by constructor|simpl; lia].
    + intros E. destruct (IH _ _ _ _ Hv E) as [IH1 IH2].
      split; [done|]. rewrite length_app in IH2. simpl in *. lia.
Qed.

Lemma insert_each_grows valid docs : forall i have es have',
  insert_each valid i docs have = (es, have') ->
  (length have <= length have')%nat.
Proof.
  induction docs as [|d docs IH]; intros i have es have'; simpl.
  - by intros [= _ <-].
  - destruct (negb (valid d)); [|case_bool_decide].
    + destruct (insert_each valid (S i) docs have) as [es1 have1] eqn:E.
      intros [= _ <-]. eauto.
    + destruct (insert_each valid (S i) docs have) as [es1 have1] eqn:E.
      intros [= _ <-]. eauto.
    + intros E%IH. rewrite length_app in E. simpl in E. lia.
Qed.

(** Without a validator the collection accounts for every batch. *)
Lemma coll_accounted (c : coll) docs :
  (forall r, validator c r = true) -> docs <> [] ->
  accounted docs (insertMany c docs).1
  /\ (forall r, validator (insertMany c docs).2 r = true).
Proof.
  intros Hv _. simpl. unfold coll_insertMany.
  destruct (insert_each (validator c) 0 docs (contents c)) as [es have] eqn:E.
  destruct (insert_each_accounted _ _ _ _ _ _ Hv E) as [Hdup Hlen].
  pose proof (insert_each_grows _ _ _ _ _ _ E) as Hle.
  destruct es as [|w es]; simpl.
  - split; [|done]. simpl in Hlen. lia.
  - split; [|done]. exists (w :: es). split; [done|]. split; [done|].
    simpl in *.
    destruct (Z.of_nat (length have) - Z.of_nat (length (contents c)) =? 0)%Z eqn:E0;
      lia.
Qed.

Lemma rows_accounted_for_witness :
  exists v c',
    main (H := IsoHost.host) None None
      [Samples.row; Samples.row; Samples.row_with "mass" "12abc"]
      Samples.empty_coll = Done v [] [] c'
    /\ batch v = [] /\ (inserted v + skipped v = 3)%Z.
Proof.
  destruct (rows_accounted_for (H := IsoHost.host) None
              (fun c => forall r, validator c r = true) coll_accounted None
              [Samples.row; Samples.row; Samples.row_with "mass" "12abc"]
              Samples.empty_coll Samples.empty_coll tt)
    as (v & fl & un & c' & Hmain & Hb & Hfl & Hsum);
    [reflexivity|reflexivity|intros r; reflexivity|].
  destruct (Hsum (Hfl eq_refl)) as [Hun Hrows].
  rewrite (Hfl eq_refl), Hun in Hmain. exists v, c'. split; [exact Hmain|].
  split; [exact Hb|exact Hrows].
Defined.

(** C5, as stated, fails: a write refused for another reason than a
    duplicate key is counted nowhere.  One row, so no flush but the final
    one. *)
Lemma refused_write_uncounted :
  ~ (forall overtaken v flight unread c',
       main (H := IsoHost.host) None overtaken
         [Samples.row_with "mass" "Infinity"] Samples.strict_coll
         = Done v flight unread c' ->
       (inserted v + skipped v = 1)%Z).
Proof.
  intros Hclaim.
  specialize (Hclaim None {| batch := []; inserted := 0; skipped := 0 |} [] []
                {| validator := validator Samples.strict_coll; contents := [] |}).
  assert (0 + 0 = 1)%Z as Habs; [|discriminate].
  apply Hclaim. reflexivity.
Qed.

(** C4, as stated, fails: the bulk write fails with a validation error,
    which is not a duplicate-key error, and the flush ends normally. *)
Lemma validation_failure_absorbed :
  let v := {| batch := [Samples.record "a" 1000]; inserted := 0; skipped := 0 |} in
  let c := {| validator := fun _ => false; contents := [] |} in
  ~ (forall e c', insertMany c (batch v) = (Throw e, c') ->
       ~ duplicate_key_error e ->
       exists v', flushBatch v c = Abrupt e v' c').
Proof.
  intros v c Hclaim.
  destruct (Hclaim
    {| message := "bulk write error";
       writeErrors := Some [{| code := 121; index := 0 |}];
       result := Some {| nInserted := None; insertedCount := Some 0%Z |} |} c)
    as [v' Hv'].
  - reflexivity.
  - intros (wes & [= <-] & Hdup). inversion Hdup as [|w l Hw _]. discriminate.
  - discriminate.
Qed.

Lemma flush_failure_handling_witness :
  let v := {| batch := [Samples.record "a" 1000]; inserted := 0; skipped := 0 |} in
  let c := {| validator := fun _ => false; contents := [] |} in
  let row := Samples.row_with "id" "a" in
  let r := match mapRow (H := IsoHost.host) row with
           | Ok r => [r]
           | Throw _ => []
           end in
  flushBatch v c = Normal {| batch := []; inserted := 0; skipped := 0 |} c
  /\ main (H := IsoHost.host) (Some "1") None [row; Samples.row] Lost
     = Failed (Error "connection closed")
         {| batch := []; inserted := 0; skipped := 0 |} Lost
  /\ main (H := IsoHost.host) None None [row] Lost
     = Failed (Error "connection closed")
         {| batch := []; inserted := 0; skipped := 0 |} Lost.
Proof.
  intros v c row r. split.
  - destruct (flush_failure_handling (H := IsoHost.host) None v c c
      {| message := "bulk write error";
         writeErrors := Some [{| code := 121; index := 0 |}];
         result := Some {| nInserted := None; insertedCount := Some 0%Z |} |})
      as [_ Habsorb]; [discriminate|reflexivity|].
    exact (Habsorb _ eq_refl).
  - split.
    + destruct (flush_failure_handling (H := IsoHost.host) (Some "1")
        {| batch := r; inserted := 0; skipped := 0 |} Lost Lost
        (Error "connection closed"))
        as [Hfatal _]; [vm_compute; discriminate|reflexivity|].
      destruct (Hfatal eq_refl) as (_ & Hlistener & _).
      destruct (Hlistener None [] row [Samples.row] Lost Lost
                  {| batch := []; inserted := 0; skipped := 0 |} tt)
        as [_ Hnone]; [reflexivity|reflexivity|reflexivity| |].
      * vm_compute. reflexivity.
      * exact (Hnone eq_refl).
    + destruct (flush_failure_handling (H := IsoHost.host) None
        {| batch := r; inserted := 0; skipped := 0 |} Lost Lost
        (Error "connection closed"))
        as [Hfatal _]; [vm_compute; discriminate|reflexivity|].
      destruct (Hfatal eq_refl) as (_ & _ & Hfinal).
      destruct (Hfinal None [row] Lost Lost tt) as [_ Hnone];
        [reflexivity|reflexivity| |].
      * vm_compute. reflexivity.
      * exact (Hnone eq_refl).
Defined.

End LoaderFacts.

(* ================================================================== *)
(** * ObjectId: printing and reading back                               *)
(* ================================================================== *)

Module ObjectIdFacts.
Import JS ObjectId.

Lemma radix_digit_hex_char d :
  (d < 16)%N -> radix_digit 16 (hex_char d) = Some d.
Proof.
  intros Hd.
  assert (d ∈ (N.of_nat <$> seq 0 16)) as Hin.
  { apply list_elem_of_fmap. exists (N.to_nat d). split; [lia|].
    apply list_elem_of_In, in_seq. lia. }
  simpl in Hin. repeat (apply elem_of_cons in Hin as [->|Hin]; [reflexivity|]).
  by apply elem_of_nil in Hin.
Qed.

Lemma span_digits_hex w : forall n tl,
  span_digits 16 (hex_digits w n ++ tl) =
    (hex_values w n ++ (span_digits 16 tl).1, (span_digits 16 tl).2).
Proof.
  induction w as [|w IH]; intros n tl; simpl.
  - by destruct (span_digits 16 tl).
  - rewrite <- app_assoc, IH. simpl.
    rewrite radix_digit_hex_char by (apply N.mod_lt; lia).
    destruct (span_digits 16 tl) as [ds rest]. simpl.
    by rewrite <- app_assoc.
Qed.

Lemma span_digits_hex_all w n :
  span_digits 16 (hex_digits w n) = (hex_values w n, []).
Proof.
  rewrite <- (app_nil_r (hex_digits w n)), span_digits_hex. simpl.
  by rewrite app_nil_r.
Qed.

Lemma digits_value_snoc r ds d :
  digits_value r (ds ++ [d]) = (digits_value r ds * r + d)%N.
Proof. unfold digits_value. by rewrite fold_left_app. Qed.

Lemma digits_value_hex w : forall n,
  digits_value 16 (hex_values w n) = (n mod 16 ^ N.of_nat w)%N.
Proof.
  induction w as [|w IH]; intros n.
  - simpl. by rewrite N.mod_1_r.
  - cbn [hex_values]. rewrite digits_value_snoc, IH.
    rewrite Nat2N.inj_succ, N.pow_succ_r', N.Div0.mod_mul_r. lia.
Qed.

Lemma length_hex_digits w n : length (hex_digits w n) = w.
Proof.
  revert n. induction w as [|w IH]; intros n; simpl; [done|].
  rewrite length_app, IH. simpl. lia.
Qed.

(** An ObjectId printed by [toHexString] is read back by the
    constructor. *)
Lemma of_string_toHexString o : wf o -> of_string (toHexString o) = Some o.
Proof.
  intros Ho. unfold of_string, toHexString.
  rewrite list_ascii_of_string_of_list_ascii, length_hex_digits.
  rewrite span_digits_hex_all, digits_value_hex. simpl.
  f_equal. apply N.mod_small, Ho.
Qed.

Lemma toHexString_nonempty o : toHexString o <> "".
Proof.
  unfold toHexString. intros Heq.
  apply (f_equal list_ascii_of_string) in Heq.
  rewrite list_ascii_of_string_of_list_ascii in Heq.
  apply (f_equal length) in Heq. by rewrite length_hex_digits in Heq.
Qed.

End ObjectIdFacts.

(* ================================================================== *)
(** * Sorting and filtering in the collection                           *)
(* ================================================================== *)

Module MongoFacts.
Import JS Mongo Words.

(** The sort document of the route. *)
Local Abbreviation by_time := [(ByTimestamp, (-1)%Z); (ById, (-1)%Z)].

Lemma sorts_before_by_time d1 d2 :
  sorts_before by_time d1 d2 <->
  (Rec.timestamp (body d2) < Rec.timestamp (body d1))%Z
  \/ (Rec.timestamp (body d1) = Rec.timestamp (body d2) /\ (_id d2 <= _id d1)%N).
Proof.
  unfold sorts_before. simpl.
  destruct (Z.compare_spec (Rec.timestamp (body d1)) (Rec.timestamp (body d2)));
    destruct (N.compare_spec (_id d1) (_id d2)); simpl; split;
    try done; try lia; intros _; lia.
Qed.

#[export] Instance sorts_before_total : Total (sorts_before by_time).
Proof. intros d1 d2. rewrite !sorts_before_by_time. lia. Qed.

#[export] Instance sorts_before_trans : Transitive (sorts_before by_time).
Proof. intros d1 d2 d3. rewrite !sorts_before_by_time. lia. Qed.

Lemma sorts_before_antisym d1 d2 :
  sorts_before by_time d1 d2 -> sorts_before by_time d2 d1 -> _id d1 = _id d2.
Proof. rewrite !sorts_before_by_time. lia. Qed.

Lemma sorts_before_strict d1 d2 :
  sorts_before by_time d1 d2 -> _id d1 <> _id d2 -> strictly_before d1 d2.
Proof. rewrite sorts_before_by_time. unfold strictly_before, after. lia. Qed.

Lemma strictly_before_not_back d1 d2 :
  sorts_before by_time d1 d2 -> ~ strictly_before d2 d1.
Proof. rewrite sorts_before_by_time. unfold strictly_before, after. lia. Qed.

(** Documents of one collection are told apart by their [_id]. *)
Lemma same_id_same_doc (coll : list document) d1 d2 :
  NoDup (_id <$> coll) -> d1 ∈ coll -> d2 ∈ coll -> _id d1 = _id d2 -> d1 = d2.
Proof.
  induction coll as [|d coll IH]; simpl; [by intros _ ?%elem_of_nil|].
  intros [Hd Hnd]%NoDup_cons Hin1 Hin2 Hid.
  apply elem_of_cons in Hin1 as [->|Hin1]; apply elem_of_cons in Hin2 as [->|Hin2];
    [done| | |by apply IH].
  - destruct Hd. rewrite Hid. apply list_elem_of_fmap. eauto.
  - destruct Hd. rewrite <- Hid. apply list_elem_of_fmap. eauto.
Qed.

Lemma StronglySorted_filter {A} (R : relation A) (P : A -> Prop)
    `{forall x, Decision (P x)} l :
  StronglySorted R l -> StronglySorted R (filter P l).
Proof.
  induction 1 as [|x l Hl IH Hx]; [constructor|].
  rewrite filter_cons. case_decide; [|done].
  constructor; [done|]. apply Forall_forall. intros y [_ Hy]%list_elem_of_filter.
  by eapply Forall_forall in Hx.
Qed.

(** Filtering before the sort or after it is the same when the order
    tells all documents apart. *)
Lemma sort_filter_commute (coll : list document) (P Q : document -> Prop)
    `{forall d, Decision (P d), forall d, Decision (Q d)} :
  NoDup (_id <$> coll) ->
  merge_sort (sorts_before by_time) (filter (fun d => P d /\ Q d) coll)
  = filter Q (merge_sort (sorts_before by_time) (filter P coll)).
Proof.
  intros Hnd. apply (StronglySorted_unique_strong (sorts_before by_time)).
  - intros d1 d2 H1 H2 H12 H21.
    apply (same_id_same_doc coll); [done| | |by apply sorts_before_antisym].
    + rewrite merge_sort_Permutation in H1.
      by apply list_elem_of_filter in H1 as [_ ?].
    + apply list_elem_of_filter in H2 as [_ H2].
      rewrite merge_sort_Permutation in H2.
      by apply list_elem_of_filter in H2 as [_ ?].
  - apply StronglySorted_merge_sort; apply _.
  - apply StronglySorted_filter, StronglySorted_merge_sort; apply _.
  - rewrite !merge_sort_Permutation, list_filter_filter.
    by rewrite (list_filter_iff _ (fun d => Q d /\ P d)) by (intros d; tauto).
Qed.

(** In a sorted list of documents with distinct [_id]s, the documents
    after the position of one of them are those that follow it. *)
Lemma after_is_suffix (l1 l2 : list document) d :
  StronglySorted (sorts_before by_time) (l1 ++ d :: l2) ->
  NoDup (_id <$> l1 ++ d :: l2) ->
  filter (after (Rec.timestamp (body d)) (_id d)) (l1 ++ d :: l2) = l2.
Proof.
  intros Hs Hnd.
  apply StronglySorted_app in Hs as (H12 & _ & Hs2).
  apply StronglySorted_cons in Hs2 as [Hd2 _].
  rewrite fmap_app, fmap_cons in Hnd.
  apply NoDup_app in Hnd as (_ & _ & [Hd _]%NoDup_cons).
  rewrite filter_app, filter_cons_False by (unfold after; lia).
  assert (filter (after (Rec.timestamp (body d)) (_id d)) l1 = []) as ->.
  { induction l1 as [|x l1 IH]; [done|].
    rewrite filter_cons_False.
    - apply IH. intros ????. apply H12; [by right|done].
    - apply (strictly_before_not_back x d), H12; by left. }
  simpl. clear H12.
  induction l2 as [|x l2 IH]; [done|].
  apply Forall_cons in Hd2 as [Hx Hd2].
  rewrite filter_cons_True.
  - f_equal. apply IH; [done|]. intros ?. apply Hd. by right.
  - apply (sorts_before_strict d x Hx). intros Heq. apply Hd.
    rewrite Heq. by left.
Qed.

Lemma matches_cursor base ts oid d :
  matches {| conds := base;
             or_ := Some [[TimestampLt ts]; [TimestampEq ts; IdLt oid]] |} d = true
  <-> matches {| conds := base; or_ := None |} d = true /\ after ts oid d.
Proof.
  unfold matches, after. simpl.
  rewrite !andb_true_r, orb_false_r, andb_true_iff, orb_true_iff, andb_true_iff.
  rewrite Z.ltb_lt, Z.eqb_eq, N.ltb_lt. naive_solver.
Qed.

End MongoFacts.

(* ================================================================== *)
(** * The route: validation and the query it builds                     *)
(* ================================================================== *)

Module PlanFacts.
Import JS Mongo Routes Words.

Section with_host.
Context `{Host}.

Lemma truthy_given v : truthy v = true <-> exists s, given v s.
Proof.
  unfold truthy, given. destruct v as [s|].
  - rewrite negb_true_iff, String.eqb_neq. split.
    + intros Hs. by exists s.
    + by intros (s' & [= <-] & Hs).
  - split; [done|]. by intros (s & ? & _).
Qed.

Lemma time_bound_inl v msg r :
  time_bound v msg = inl r <->
  r = SendError 400 msg /\ exists s, given v s /\ Date_parse s = None.
Proof.
  unfold time_bound. destruct (truthy v) eqn:Hv.
  - apply truthy_given in Hv as (s & -> & Hs). simpl.
    destruct (Date_parse s) eqn:Hp.
    + split; [done|]. intros (_ & s' & [[= <-] _] & ?). congruence.
    + split; [intros [= <-]; split; [done|]; exists s; by repeat split|].
      by intros [-> _].
  - split; [done|]. intros (_ & s & Hs & _).
    assert (truthy v = true) by (apply truthy_given; eauto). congruence.
Qed.

Lemma time_bound_inr v msg o :
  time_bound v msg = inr o <->
  match o with
  | Some t => exists s, given v s /\ Date_parse s = Some t
  | None => truthy v = false
  end.
Proof.
  unfold time_bound. destruct (truthy v) eqn:Hv.
  - apply truthy_given in Hv as (s & -> & Hs). simpl.
    assert (truthy (Some s) = true) as Ht by (apply truthy_given; by exists s).
    destruct (Date_parse s) eqn:Hp.
    + destruct o as [t|]; [|split; [done|congruence]]. split.
      * intros [= <-]. exists s. by split.
      * intros (s' & [[= <-] _] & ?). congruence.
    + destruct o as [t|]; [|split; [done|congruence]]. split; [done|].
      intros (s' & [[= <-] _] & ?). congruence.
  - destruct o as [t|]; [|done]. split; [done|].
    intros (s & Hs & _).
    assert (truthy v = true) by (apply truthy_given; eauto). congruence.
Qed.

(** The cursor clause of a request, case by case. *)
Lemma cursor_filter_cases q :
  match cursor_filter q with
  | inr None => truthy (Query.cursorTs q) = false /\ truthy (Query.cursorId q) = false
  | inr (Some cl) =>
      exists s1 s2 ts oid,
        given (Query.cursorTs q) s1 /\ given (Query.cursorId q) s2
        /\ Date_parse s1 = Some ts /\ ObjectId.of_string s2 = Some oid
        /\ cl = [[TimestampLt ts]; [TimestampEq ts; IdLt oid]]
  | inl r =>
      exists msg, r = SendError 400 msg /\ msg ∈ refusals
        /\ (truthy (Query.cursorTs q) <> truthy (Query.cursorId q)
            \/ exists s1 s2,
                 given (Query.cursorTs q) s1 /\ given (Query.cursorId q) s2
                 /\ (Date_parse s1 = None \/ ObjectId.of_string s2 = None))
  end.
Proof.
  unfold cursor_filter.
  destruct (truthy (Query.cursorTs q)) eqn:H1,
           (truthy (Query.cursorId q)) eqn:H2; simpl; try done.
  - apply truthy_given in H1 as (s1 & E1 & N1), H2 as (s2 & E2 & N2).
    rewrite E1, E2. simpl.
    destruct (Date_parse s1) as [ts|] eqn:Hp.
    + destruct (ObjectId.of_string s2) as [oid|] eqn:Ho.
      * exists s1, s2, ts, oid. by repeat split.
      * eexists. split; [done|]. split; [set_solver|]. right.
        exists s1, s2. repeat split; auto.
    + eexists. split; [done|]. split; [set_solver|]. right.
      exists s1, s2. repeat split; auto.
  - eexists. split; [done|]. split; [set_solver|]. by left.
  - eexists. split; [done|]. split; [set_solver|]. by left.
Qed.

(** The query of a request is that of the same request without cursor,
    with the clause of the cursor put in. *)
Lemma plan_with_cursor q req0 c :
  plan (with_cursor q None) = inr req0 ->
  plan (with_cursor q c) =
    match cursor_filter (with_cursor q c) with
    | inl r => inl r
    | inr cur =>
        inr {| fr_filter := {| conds := conds (fr_filter req0); or_ := cur |};
               fr_projection := fr_projection req0;
               fr_sort := fr_sort req0;
               fr_limit := fr_limit req0 |}
    end.
Proof.
  unfold plan. simpl.
  destruct (time_bound (Query.from q) _) as [r|gte]; [done|].
  destruct (time_bound (Query.to q) _) as [r|lte]; [done|].
  destruct (match gte with Some a => _ | None => _ end); [done|].
  intros [= <-]. simpl. by destruct (cursor_filter (with_cursor q c)).
Qed.

Lemma plan_no_cursor q req0 :
  plan (with_cursor q None) = inr req0 ->
  or_ (fr_filter req0) = None
  /\ fr_projection req0 = projection q
  /\ fr_sort req0 = [(ByTimestamp, -1); (ById, -1)]%Z
  /\ fr_limit req0 = (Query.limit q + 1)%Z.
Proof.
  unfold plan. simpl.
  destruct (time_bound (Query.from q) _) as [r|gte]; [done|].
  destruct (time_bound (Query.to q) _) as [r|lte]; [done|].
  destruct (match gte with Some a => _ | None => _ end); [done|].
  by intros [= <-].
Qed.

(** What every query the route builds has in common. *)
Lemma plan_shape q req :
  plan q = inr req ->
  fr_projection req = projection q
  /\ fr_sort req = [(ByTimestamp, -1); (ById, -1)]%Z
  /\ fr_limit req = (Query.limit q + 1)%Z.
Proof.
  unfold plan.
  destruct (time_bound (Query.from q) _) as [r|gte]; [done|].
  destruct (time_bound (Query.to q) _) as [r|lte]; [done|].
  destruct (match gte with Some a => _ | None => _ end); [done|].
  destruct (cursor_filter q); [done|]. by intros [= <-].
Qed.


End with_host.
End PlanFacts.

(* ================================================================== *)
(** * The route: the query and the page                                 *)
(* ================================================================== *)

Module PageFacts.
Import JS Mongo Routes Words PlanFacts.



Section with_host.
Context `{Host}.

Lemma schema_valid_limit q : schema_valid q -> (1 <= Query.limit q)%Z.
Proof. intros (_ & _ & _ & _ & Hlimit). lia. Qed.

Lemma with_cursor_own q s1 s2 :
  Query.cursorTs q = Some s1 -> Query.cursorId q = Some s2 ->
  with_cursor q (Some {| cursorTs := s1; cursorId := s2 |}) = q.
Proof. destruct q. simpl. by intros -> ->. Qed.

Lemma parsed_date_given s t : Date_parse s = Some t -> s <> "".
Proof. intros Hs ->. rewrite Date_parse_empty in Hs. discriminate. Qed.

Lemma parsed_id_given s o : ObjectId.of_string s = Some o -> s <> "".
Proof. intros Hs ->. discriminate. Qed.

Lemma cursor_filter_valid q s1 s2 ts oid :
  Query.cursorTs q = Some s1 -> Query.cursorId q = Some s2 ->
  Date_parse s1 = Some ts -> ObjectId.of_string s2 = Some oid ->
  cursor_filter q = inr (Some [[TimestampLt ts]; [TimestampEq ts; IdLt oid]]).
Proof.
  intros E1 E2 Hts Hoid. unfold cursor_filter.
  assert (truthy (Query.cursorTs q) = true) as ->.
  { apply truthy_given. exists s1. split; [done|]. by eapply parsed_date_given. }
  assert (truthy (Query.cursorId q) = true) as ->.
  { apply truthy_given. exists s2. split; [done|]. by eapply parsed_id_given. }
  rewrite E1, E2. simpl. by rewrite Hts, Hoid.
Qed.

Lemma elem_of_find coll req it :
  it ∈ find coll req ->
  exists d, d ∈ coll /\ matches (fr_filter req) d = true
            /\ it = project (fr_projection req) d.
Proof.
  unfold find. intros (d & -> & Hd)%list_elem_of_fmap.
  exists d. split; [|split; [|done]].
  - assert (d ∈ merge_sort (sorts_before (fr_sort req))
                   (filter (fun d => matches (fr_filter req) d = true) coll)) as Hd'.
    { unfold limit_to in Hd. destruct (_ =? _)%Z; [done|].
      by eapply subseteq_take. }
    rewrite merge_sort_Permutation in Hd'.
    by apply list_elem_of_filter in Hd' as [_ ?].
  - assert (d ∈ merge_sort (sorts_before (fr_sort req))
                   (filter (fun d => matches (fr_filter req) d = true) coll)) as Hd'.
    { unfold limit_to in Hd. destruct (_ =? _)%Z; [done|].
      by eapply subseteq_take. }
    rewrite merge_sort_Permutation in Hd'.
    by apply list_elem_of_filter in Hd' as [? _].
Qed.

(** C2: a request with a valid cursor is planned as the same request
    without cursor, with exactly the clause "timestamp < cursorTs, or
    timestamp = cursorTs and _id < cursorId" added; a document matches
    the one when it matches the other and sorts strictly after the cursor,
    and only such documents are found. *)
Theorem cursor_adds_strictly_after (q : Query.t) (base : find_request)
    s1 s2 ts oid :
  Query.cursorTs q = Some s1 -> Query.cursorId q = Some s2 ->
  Date_parse s1 = Some ts -> ObjectId.of_string s2 = Some oid ->
  plan (with_cursor q None) = inr base ->
  exists req,
    plan q = inr req
    /\ conds (fr_filter req) = conds (fr_filter base)
    /\ or_ (fr_filter base) = None
    /\ or_ (fr_filter req) = Some [[TimestampLt ts]; [TimestampEq ts; IdLt oid]]
    /\ (forall d, matches (fr_filter req) d = true
                  <-> matches (fr_filter base) d = true /\ after ts oid d)
    /\ (forall coll it, it ∈ find coll req ->
          exists d, d ∈ coll /\ it = project (projection q) d /\ after ts oid d).
Proof.
  intros E1 E2 Hts Hoid Hbase.
  pose proof (plan_with_cursor q base (Some {| cursorTs := s1; cursorId := s2 |})
                Hbase) as Hplan.
  rewrite (with_cursor_own q s1 s2 E1 E2) in Hplan.
  rewrite (cursor_filter_valid q s1 s2 ts oid E1 E2 Hts Hoid) in Hplan.
  destruct (plan_no_cursor q base Hbase) as (Hor & Hproj & _).
  eexists. split; [exact Hplan|]. simpl.
  assert (forall d,
    matches {| conds := conds (fr_filter base);
               or_ := Some [[TimestampLt ts]; [TimestampEq ts; IdLt oid]] |} d = true
    <-> matches (fr_filter base) d = true /\ after ts oid d) as Hm.
  { intros d. rewrite MongoFacts.matches_cursor.
    destruct (fr_filter base) as [cs o]. simpl in Hor. by rewrite Hor. }
  split; [done|]. split; [done|]. split; [done|]. split; [exact Hm|].
  intros coll it (d & Hd & Hmatch & ->)%elem_of_find. simpl in *.
  exists d. rewrite Hproj. split; [done|]. split; [done|]. by apply Hm.
Qed.

(** C3: a valid request puts exactly one query to the collection, sorted
    by (timestamp desc, _id desc) and capped at limit + 1.  When more than
    [limit] rows come back, each with its date, the page holds the first
    [limit] of them and [nextCursor] is the timestamp and the _id of the
    last row of the page; when at most [limit] come back, the page holds
    them all and [nextCursor] is null. *)
Theorem one_query_with_lookahead (q : Query.t) (req : find_request) :
  (1 <= Query.limit q)%Z ->
  plan q = inr req ->
  handler q = Find req (fun res => Ret (respond q res))
  /\ fr_sort req = [(ByTimestamp, -1); (ById, -1)]%Z
  /\ fr_limit req = (Query.limit q + 1)%Z
  /\ forall docs, Forall dated docs ->
       exists p, respond q (Ok docs) = SendPage p
         /\ count p = length (items p)
         /\ ((Query.limit q < Z.of_nat (length docs))%Z ->
               items p = take (Z.to_nat (Query.limit q)) docs
               /\ exists l t,
                    last (items p) = Some l
                    /\ item_fields l !! "timestamp" = Some (VDate t)
                    /\ nextCursor p =
                         Some {| cursorTs := Date_toISOString t;
                                 cursorId := ObjectId.toHexString (item_id l) |})
         /\ ((Z.of_nat (length docs) <= Query.limit q)%Z ->
               items p = docs /\ nextCursor p = None).
Proof.
  intros Hlim Hplan. destruct (plan_shape q req Hplan) as (_ & Hsort & Hl).
  split; [unfold handler; by rewrite Hplan|]. split; [done|]. split; [done|].
  intros docs Hdocs. unfold respond. simpl.
  destruct (Query.limit q <? Z.of_nat (length docs))%Z eqn:Hmore.
  - apply Z.ltb_lt in Hmore.
    assert (slice0 docs (Query.limit q) = take (Z.to_nat (Query.limit q)) docs)
      as Hslice.
    { unfold slice0. destruct (Query.limit q <? 0)%Z eqn:E; [|done].
      apply Z.ltb_lt in E. lia. }
    rewrite Hslice.
    destruct (last (take (Z.to_nat (Query.limit q)) docs)) as [l|] eqn:Hlast.
    + assert (dated l) as [t Ht].
      { eapply Forall_forall; [exact Hdocs|].
        eapply subseteq_take. apply last_Some_elem_of. exact Hlast. }
      unfold cursor_of. rewrite Ht. simpl. eexists. split; [done|]. simpl.
      split; [done|]. split; [|lia]. intros _. split; [done|].
      exists l, t. by rewrite Hlast.
    + apply last_None in Hlast. apply (f_equal length) in Hlast.
      rewrite length_take in Hlast. simpl in Hlast. lia.
  - apply Z.ltb_ge in Hmore. simpl. eexists. split; [done|]. simpl.
    split; [done|]. split; [lia|]. done.
Qed.

(** A request is refused with status 400 only. *)
Lemma plan_refusal q r :
  plan q = inl r -> exists msg, r = SendError 400 msg.
Proof.
  unfold plan.
  destruct (time_bound (Query.from q) _) as [r1|gte] eqn:Hfrom.
  { apply time_bound_inl in Hfrom as [-> _]. intros [= <-]. eauto. }
  destruct (time_bound (Query.to q) _) as [r2|lte] eqn:Hto.
  { apply time_bound_inl in Hto as [-> _]. intros [= <-]. eauto. }
  destruct (match gte with Some a => _ | None => _ end).
  { intros [= <-]. eauto. }
  pose proof (cursor_filter_cases q) as Hcur.
  destruct (cursor_filter q) as [r3|cl]; [|done].
  destruct Hcur as (msg & -> & _). intros [= <-]. eauto.
Qed.

(** Only invalid requests are refused. *)
Lemma refused_is_invalid q r : plan q = inl r -> invalid q.
Proof.
  unfold plan, invalid.
  destruct (time_bound (Query.from q) _) as [r1|gte] eqn:Hfrom.
  { apply time_bound_inl in Hfrom as [_ ?]. auto. }
  destruct (time_bound (Query.to q) _) as [r2|lte] eqn:Hto.
  { apply time_bound_inl in Hto as [_ ?]. auto. }
  destruct gte as [a|], lte as [b|];
    try (destruct (b <? a)%Z eqn:Hcmp;
         [apply time_bound_inr in Hfrom as (s1 & ? & ?);
          apply time_bound_inr in Hto as (s2 & ? & ?);
          apply Z.ltb_lt in Hcmp; intros _; right; right; left;
          by exists s1, s2, a, b|]).
  all: pose proof (cursor_filter_cases q) as Hcur;
    destruct (cursor_filter q) as [r3|cl]; [|done];
    destruct Hcur as (msg & _ & _ & [?|?]); auto.
Qed.

(** What a returned item carries of the stored document it comes from. *)
Lemma project_lookup names d name :
  item_fields (project names d) !! name =
    if bool_decide (name ∈ names) then fields_of (body d) !! name else None.
Proof.
  unfold project. simpl. rewrite map_lookup_filter.
  destruct (fields_of (body d) !! name) as [v|]; simpl;
    case_bool_decide; try done.
  - by rewrite option_guard_True.
  - by rewrite option_guard_False.
Qed.

Lemma respond_items q docs p :
  respond q (Ok docs) = SendPage p -> items p ⊆ docs.
Proof.
  unfold respond. simpl.
  destruct (Query.limit q <? _)%Z.
  - destruct (last _) as [l|]; simpl.
    + destruct (cursor_of l); simpl; [|done]. intros [= <-]. simpl.
      unfold slice0. destruct (_ <? 0)%Z; apply subseteq_take.
    + intros [= <-]. simpl.
      unfold slice0. destruct (_ <? 0)%Z; apply subseteq_take.
  - intros [= <-]. done.
Qed.

(** C6, amended: every item of a page comes from a stored document of
    the collection and carries its [_id] and, of its fields, exactly those
    of the projection: siteId, equipmentId, timestamp and confidence, and
    detections if and only if [includeDetections] is true.  The other
    attributes of the record are not returned. *)
Theorem items_carry_the_projection (coll : list document) (q : Query.t)
    (p : page) (it : item) :
  run coll (handler q) = SendPage p -> it ∈ items p ->
  exists d, d ∈ coll /\ item_id it = _id d
    /\ (forall name,
          item_fields it !! name =
            if bool_decide (name ∈ ["siteId"; "equipmentId"; "timestamp";
                                    "confidence"])
            then fields_of (body d) !! name
            else if bool_decide (name = "detections")
                 then if Query.includeDetections q
                      then fields_of (body d) !! name else None
                 else None)
    /\ (is_Some (item_fields it !! "detections")
        <-> Query.includeDetections q = true).
Proof.
  unfold handler. destruct (plan q) as [r|req] eqn:Hplan.
  { apply plan_refusal in Hplan as [msg ->]. done. }
  simpl. intros Hp Hit. apply respond_items in Hp.
  apply Hp, elem_of_find in Hit as (d & Hd & _ & ->).
  destruct (plan_shape q req Hplan) as (-> & _).
  exists d. split; [done|]. split; [done|]. split.
  - intros name. rewrite project_lookup. unfold projection.
    destruct (decide (name = "_id")) as [->|Hid].
    { by destruct (Query.includeDetections q). }
    destruct (Query.includeDetections q);
      repeat case_bool_decide; try done; exfalso;
      repeat match goal with
             | Hin : _ ∈ _ |- _ => rewrite ?elem_of_cons, elem_of_nil in Hin
             | Hin : _ ∉ _ |- _ =>
                 unfold not in Hin; rewrite ?elem_of_cons, elem_of_nil in Hin
             end; intuition congruence.
  - rewrite project_lookup. unfold projection.
    destruct (Query.includeDetections q); simpl.
    + split; [done|]. intros _. by eexists.
    + split; [by intros [? ?]|done].
Qed.

End with_host.

(** C6, as stated, fails: the item of a stored record has no mass (nor
    id, siteName, type, unit, scanDuration, numDetections). *)
Lemma returned_item_without_mass :
  ~ (forall p it,
       run Samples.stored (handler (H := IsoHost.host) (Samples.query None 2 None))
         = SendPage p ->
       it ∈ items p ->
       forall a, a ∈ record_attributes -> is_Some (item_fields it !! a)).
Proof.
  intros Hclaim.
  pose (names := ["_id"; "siteId"; "equipmentId"; "timestamp"; "confidence"]).
  pose (d6 := {| _id := 6%N; body := Samples.record "c" 2000 |}).
  pose (d7 := {| _id := 7%N; body := Samples.record "b" 1000 |}).
  destruct (Hclaim
    {| count := 2; siteId := "s1"; equipmentId := "e1";
       nextCursor := Some {| cursorTs := "1970-01-01T00:00:01.000Z";
                             cursorId := "000000000000000000000007" |};
       items := project names <$> [d6; d7] |}
    (project names d6)) with (a := "mass") as [v Hv].
  - vm_compute. reflexivity.
  - simpl. left.
  - unfold record_attributes. do 6 right. left.
  - vm_compute in Hv. discriminate.
Qed.

Lemma cursor_adds_strictly_after_witness :
  exists req,
    plan (H := IsoHost.host)
      (Samples.query None 2
         (Some {| cursorTs := "1970-01-01T00:00:01.000Z";
                  cursorId := "000000000000000000000007" |})) = inr req
    /\ or_ (fr_filter req)
       = Some [[TimestampLt 1000]; [TimestampEq 1000; IdLt 7%N]].
Proof.
  destruct (cursor_adds_strictly_after (H := IsoHost.host)
              (Samples.query None 2
                 (Some {| cursorTs := "1970-01-01T00:00:01.000Z";
                          cursorId := "000000000000000000000007" |}))
              {| fr_filter :=
                   {| conds := [SiteIdEq "s1"; EquipmentIdEq "e1";
                                ConfidenceGte (StringToNumber "0.75")];
                      or_ := None |};
                 fr_projection := ["_id"; "siteId"; "equipmentId"; "timestamp";
                                   "confidence"];
                 fr_sort := [(ByTimestamp, (-1)%Z); (ById, (-1)%Z)];
                 fr_limit := 3 |}
              "1970-01-01T00:00:01.000Z" "000000000000000000000007" 1000 7%N)
    as (req & Hreq & _ & _ & Hor & _); [reflexivity..|].
  exists req. split; [exact Hreq|exact Hor].
Defined.

Lemma one_query_with_lookahead_witness :
  let q := Samples.query None 2 None in
  let names := ["_id"; "siteId"; "equipmentId"; "timestamp"; "confidence"] in
  let req :=
    {| fr_filter :=
         {| conds := [SiteIdEq "s1"; EquipmentIdEq "e1";
                      ConfidenceGte (StringToNumber "0.75")];
            or_ := None |};
       fr_projection := names;
       fr_sort := [(ByTimestamp, (-1)%Z); (ById, (-1)%Z)];
       fr_limit := 3 |} in
  let docs :=
    project names
      <$> [ {| _id := 6%N; body := Samples.record "c" 2000 |};
            {| _id := 7%N; body := Samples.record "b" 1000 |};
            {| _id := 5%N; body := Samples.record "a" 1000 |} ] in
  handler (H := IsoHost.host) q
    = Find req (fun res => Ret (respond (H := IsoHost.host) q res))
  /\ exists p, respond (H := IsoHost.host) q (Ok docs) = SendPage p
       /\ items p = take 2 docs.
Proof.
  intros q names req docs.
  destruct (one_query_with_lookahead (H := IsoHost.host) q req)
    as (Hhandler & _ & _ & Hpage); [vm_compute; discriminate|reflexivity|].
  split; [exact Hhandler|].
  destruct (Hpage docs) as (p & Hp & _ & Hmore & _).
  - repeat constructor; eexists; reflexivity.
  - exists p. split; [exact Hp|].
    destruct Hmore as [Hitems _]; [vm_compute; reflexivity|exact Hitems].
Defined.

Lemma items_carry_the_projection_witness :
  exists d, d ∈ Samples.stored /\ _id d = 6%N.
Proof.
  destruct (items_carry_the_projection (H := IsoHost.host) Samples.stored
              (Samples.query None 2 None)
              {| count := 2; siteId := "s1"; equipmentId := "e1";
                 nextCursor := Some {| cursorTs := "1970-01-01T00:00:01.000Z";
                                       cursorId := "000000000000000000000007" |};
                 items := project ["_id"; "siteId"; "equipmentId"; "timestamp";
                                   "confidence"]
                          <$> [ {| _id := 6%N; body := Samples.record "c" 2000 |};
                                {| _id := 7%N; body := Samples.record "b" 1000 |} ] |}
              (project ["_id"; "siteId"; "equipmentId"; "timestamp"; "confidence"]
                 {| _id := 6%N; body := Samples.record "c" 2000 |}))
    as (d & Hd & Hid & _).
  - vm_compute. reflexivity.
  - simpl. left.
  - exists d. split; [exact Hd|]. symmetry. exact Hid.
Defined.

End PageFacts.

(* ================================================================== *)
(** * Paging through a fixed collection                                 *)
(* ================================================================== *)

Module PagingFacts.
Import JS Mongo Routes Words PlanFacts PageFacts MongoFacts.

Local Abbreviation by_time := [(ByTimestamp, (-1)%Z); (ById, (-1)%Z)].

Lemma StronglySorted_strict (l : list document) :
  StronglySorted (sorts_before by_time) l -> NoDup (_id <$> l) ->
  StronglySorted strictly_before l.
Proof.
  induction 1 as [|d l Hl IH Hd]; [constructor|].
  rewrite fmap_cons. intros [Hnin Hnd]%NoDup_cons.
  constructor; [by apply IH|].
  apply Forall_forall. intros x Hx.
  apply sorts_before_strict; [by eapply Forall_forall in Hd|].
  intros Heq. apply Hnin. rewrite Heq. apply list_elem_of_fmap. eauto.
Qed.

Section paging.
Context `{Host}.
Variable coll : list document.
Variable q : Query.t.
Variable base : find_request.
Hypothesis distinct_ids : NoDup (_id <$> coll).
Hypothesis readable : Forall cursor_readable coll.
Hypothesis limit_positive : (1 <= Query.limit q)%Z.
Hypothesis valid : plan (with_cursor q None) = inr base.

(** The matching documents in the order of the pages. *)
Local Abbreviation matching :=
  (merge_sort (sorts_before by_time)
     (filter (fun d => matches (fr_filter base) d = true) coll)).

Local Abbreviation n := (Z.to_nat (Query.limit q)).

Lemma matching_in_coll d : d ∈ matching -> d ∈ coll.
Proof.
  rewrite merge_sort_Permutation. by intros [_ ?]%list_elem_of_filter.
Qed.

Lemma matching_sorted : StronglySorted (sorts_before by_time) matching.
Proof. apply StronglySorted_merge_sort; apply _. Qed.

Lemma matching_distinct : NoDup (_id <$> matching).
Proof.
  rewrite merge_sort_Permutation.
  eapply sublist_NoDup; [exact distinct_ids|].
  apply fmap_sublist, sublist_filter.
Qed.

Lemma length_matching : length matching <= length coll.
Proof. rewrite merge_sort_Permutation. apply length_filter. Qed.

Lemma limit_to_lookahead {A} (l : list A) :
  limit_to (Query.limit q + 1) l = take (S n) l.
Proof.
  unfold limit_to. destruct (Query.limit q + 1 =? 0)%Z eqn:E; [lia|].
  f_equal. lia.
Qed.

(** What the collection answers to the request that stands behind
    [pre]: the next documents, one more than the limit. *)
Lemma find_next pre rest c :
  matching = pre ++ rest -> behind pre c ->
  exists req,
    plan (with_cursor q c) = inr req
    /\ find coll req = project (projection q) <$> take (S n) rest.
Proof.
  intros Hsplit Hc.
  destruct (plan_no_cursor q base valid) as (Hor & Hproj & Hsort & Hlimit).
  destruct c as [c|]; simpl in Hc.
  - destruct Hc as (pre' & d & -> & ->).
    assert (d ∈ coll) as Hd.
    { apply matching_in_coll. rewrite Hsplit. set_solver. }
    destruct (proj1 (Forall_forall _ _) readable d Hd) as [Hwf Hdate].
    pose proof (plan_with_cursor q base (Some (cursor_at d)) valid) as Hplan.
    rewrite (cursor_filter_valid (with_cursor q (Some (cursor_at d)))
               (cursorTs (cursor_at d)) (cursorId (cursor_at d))
               (Rec.timestamp (body d)) (_id d)
               eq_refl eq_refl Hdate (ObjectIdFacts.of_string_toHexString _ Hwf))
      in Hplan.
    eexists. split; [exact Hplan|].
    unfold find. simpl. rewrite Hproj, Hsort, Hlimit, limit_to_lookahead.
    do 2 f_equal.
    rewrite (list_filter_iff _
               (fun x => matches (fr_filter base) x = true
                         /\ after (Rec.timestamp (body d)) (_id d) x)).
    + rewrite sort_filter_commute by done.
      assert (matching = pre' ++ d :: rest) as Hsplit'
        by (by rewrite Hsplit, <- app_assoc).
      rewrite Hsplit'. apply after_is_suffix; rewrite <- Hsplit'.
      * apply matching_sorted.
      * apply matching_distinct.
    + intros x. rewrite matches_cursor.
      destruct (fr_filter base) as [cs o]. simpl in Hor. by rewrite Hor.
  - subst pre. simpl in Hsplit. exists base. split; [exact valid|].
    unfold find. by rewrite Hproj, Hsort, Hlimit, limit_to_lookahead, Hsplit.
Qed.

Lemma cursor_of_project d :
  cursor_of (project (projection q) d) = Ok (cursor_at d).
Proof.
  unfold cursor_of. rewrite project_lookup.
  assert (bool_decide ("timestamp" ∈ projection q) = true) as ->.
  { unfold projection. by destruct (Query.includeDetections q). }
  reflexivity.
Qed.

(** The page made of the answer. *)
Lemma respond_next rest c :
  exists p,
    respond (with_cursor q c) (Ok (project (projection q) <$> take (S n) rest))
      = SendPage p
    /\ items p = project (projection q) <$> take n rest
    /\ nextCursor p =
         if decide (n < length rest)
         then cursor_at <$> last (take n rest) else None.
Proof.
  unfold respond. simpl.
  rewrite length_fmap, length_take.
  destruct (decide (n < length rest)) as [Hmore|Hlast].
  - assert ((Query.limit q <? Z.of_nat (S n `min` length rest))%Z = true) as ->
      by (apply Z.ltb_lt; lia).
    assert (slice0 (project (projection q) <$> take (S n) rest) (Query.limit q)
            = project (projection q) <$> take n rest) as ->.
    { unfold slice0. destruct (Query.limit q <? 0)%Z eqn:E; [lia|].
      rewrite <- fmap_take, take_take. do 2 f_equal. lia. }
    rewrite fmap_last.
    destruct (last (take n rest)) as [d|] eqn:Hd.
    + simpl. rewrite cursor_of_project. simpl. by eexists.
    + apply last_None in Hd. apply (f_equal length) in Hd.
      rewrite length_take in Hd. simpl in Hd. lia.
  - assert ((Query.limit q <? Z.of_nat (S n `min` length rest))%Z = false) as ->
      by (apply Z.ltb_ge; lia).
    simpl. eexists. split; [done|]. simpl. split; [|done].
    by rewrite !take_ge by lia.
Qed.

(** From any position, the requests run to the end of the matching
    documents, and the pages are these documents in order. *)
Lemma pages_from fuel : forall pre rest c,
  matching = pre ++ rest -> behind pre c -> length rest < fuel ->
  exists pgs,
    pages fuel coll q c = Some pgs
    /\ concat pgs = project (projection q) <$> rest
    /\ Forall (fun pg => length pg <= n) pgs.
Proof.
  induction fuel as [|fuel IH]; intros pre rest c Hsplit Hc Hfuel; [lia|].
  destruct (find_next pre rest c Hsplit Hc) as (req & Hplan & Hfind).
  destruct (respond_next rest c) as (p & Hp & Hitems & Hnext).
  simpl. unfold handler. rewrite Hplan. simpl. rewrite Hfind, Hp, Hnext.
  destruct (decide (n < length rest)) as [Hmore|Hlast].
  - destruct (last (take n rest)) as [d|] eqn:Hd.
    + simpl. apply last_Some in Hd as [l' Hl'].
      destruct (IH (pre ++ take n rest) (drop n rest) (Some (cursor_at d)))
        as (pgs & Hpgs & Hcat & Hlen).
      * by rewrite <- app_assoc, take_drop.
      * simpl. exists (pre ++ l'), d. by rewrite Hl', app_assoc.
      * rewrite length_drop. lia.
      * rewrite Hpgs. simpl. eexists. split; [done|]. split.
        -- simpl. by rewrite Hcat, Hitems, <- fmap_app, take_drop.
        -- constructor; [|done].
           rewrite Hitems, length_fmap, length_take. lia.
    + apply last_None in Hd. apply (f_equal length) in Hd.
      rewrite length_take in Hd. simpl in Hd. lia.
  - eexists. split; [done|]. split.
    + simpl. rewrite Hitems, app_nil_r. by rewrite take_ge by lia.
    + constructor; [|done]. rewrite Hitems, length_fmap, length_take. lia.
Qed.

(** C1: over a fixed collection whose documents have distinct [_id]s
    that survive the round trip through a cursor, the requests of a valid
    query, the first without cursor and each next one with the [nextCursor]
    of the reply before, end with a null [nextCursor]; the pages put end to
    end are what the one query without limit answers; this is the
    projection of the matching documents, each exactly once, in
    (timestamp desc, _id desc) order. *)
Theorem paging_visits_each_record_once :
  exists pgs all docs,
    pages (S (length coll)) coll q None = Some pgs
    /\ unlimited coll q = Some all
    /\ concat pgs = all
    /\ Forall (fun pg => length pg <= n) pgs
    /\ all = project (projection q) <$> docs
    /\ docs ≡ₚ filter (fun d => matches (fr_filter base) d = true) coll
    /\ NoDup (item_id <$> all)
    /\ StronglySorted strictly_before docs.
Proof.
  destruct (pages_from (S (length coll)) [] matching None)
    as (pgs & Hpgs & Hcat & Hlen); [done|done|pose proof length_matching; lia|].
  destruct (plan_no_cursor q base valid) as (Hor & Hproj & Hsort & Hlimit).
  exists pgs, (project (projection q) <$> matching), matching.
  split; [done|]. split.
  { unfold unlimited. rewrite valid. unfold find. simpl.
    by rewrite Hproj, Hsort. }
  split; [done|]. split; [done|]. split; [done|].
  split; [apply merge_sort_Permutation|]. split.
  - rewrite <- list_fmap_compose.
    replace (item_id ∘ project (projection q)) with _id by done.
    apply matching_distinct.
  - apply StronglySorted_strict; [apply matching_sorted|apply matching_distinct].
Qed.

End paging.

Lemma sample_readable :
  Forall (cursor_readable (H := IsoHost.host)) Samples.stored.
Proof.
  repeat constructor; vm_compute; done.
Qed.

Lemma paging_visits_each_record_once_witness :
  exists pgs all,
    pages (H := IsoHost.host) 4 Samples.stored (Samples.query None 2 None) None
      = Some pgs
    /\ unlimited (H := IsoHost.host) Samples.stored (Samples.query None 2 None)
       = Some all
    /\ concat pgs = all /\ item_id <$> all = [6%N; 7%N; 5%N].
Proof.
  destruct (paging_visits_each_record_once (H := IsoHost.host) Samples.stored
              (Samples.query None 2 None)
              {| fr_filter :=
                   {| conds := [SiteIdEq "s1"; EquipmentIdEq "e1";
                                ConfidenceGte (StringToNumber "0.75")];
                      or_ := None |};
                 fr_projection := ["_id"; "siteId"; "equipmentId"; "timestamp";
                                   "confidence"];
                 fr_sort := [(ByTimestamp, (-1)%Z); (ById, (-1)%Z)];
                 fr_limit := 3 |})
    as (pgs & all & docs & Hpgs & Hall & Hcat & _).
  - compute_done.
  - exact sample_readable.
  - vm_compute. discriminate.
  - reflexivity.
  - exists pgs, all. split; [exact Hpgs|]. split; [exact Hall|].
    split; [exact Hcat|].
    vm_compute in Hall. injection Hall as <-. reflexivity.
Defined.

End PagingFacts.

(* ================================================================== *)
(** * The model at work                                                 *)
(* ================================================================== *)

Module Examples.
Import JS Mongo Routes Seed Words IsoHost.

(** ** Conversions *)

Example Number_decimal :
  StringToNumber "12.34" = S754_finite false 6946802425218990 (-49).
Proof. reflexivity. Qed.

Example Number_special :
  StringToNumber "Infinity" = Infinity
  /\ StringToNumber "-Infinity" = S754_infinity true
  /\ StringToNumber "1e999" = Infinity
  /\ StringToNumber "" = zero
  /\ StringToNumber " 0x1F " = number_of_N 31%N
  /\ StringToNumber "12abc" = NaN
  /\ StringToNumber "1,5" = NaN.
Proof. repeat split; vm_compute; reflexivity. Qed.

Example parseInt_prefix :
  parseInt10 (Some "12.5") = number_of_N 12%N
  /\ parseInt10 (Some "12abc") = number_of_N 12%N
  /\ parseInt10 (Some "  -7 kg") = number_of_decimal true 7%N 0%Z
  /\ parseInt10 (Some "abc") = NaN
  /\ parseInt10 (Some "") = NaN
  /\ parseInt10 None = NaN.
Proof. repeat split; vm_compute; reflexivity. Qed.

Example leading_int_of_decimal :
  leading_int (Some "  -12.5") = (true, [1%N; 2%N]).
Proof.
  apply (JSFacts.leading_int_reads [" "; " "]%char true ["1"; "2"]%char [1; 2]%N
           ["."; "5"]%char).
  - reflexivity.
  - repeat constructor.
  - discriminate.
  - by intros c [= <-].
Qed.
Example ObjectId_text :
  ObjectId.of_string "696c40682de1d0bbca8aa236"
    = Some 32626794172982052596499522102%N
  /\ ObjectId.toHexString 32626794172982052596499522102%N
     = "696c40682de1d0bbca8aa236"
  /\ ObjectId.of_string "not-an-objectid" = None.
Proof. repeat split; vm_compute; reflexivity. Qed.

Example Date_text :
  Date_parse "2026-01-01T00:00:00.000Z" = Some 1767225600000%Z
  /\ Date_toISOString 1767207649184%Z = "2025-12-31T19:00:49.184Z"
  /\ Date_parse "not-a-date" = None.
Proof. repeat split; vm_compute; reflexivity. Qed.

(** ** The normalizer (test "mapRow converts types correctly") *)

Example mapRow_converts_types :
  mapRow Samples.row =
    Ok {| Rec.id := Some "uuid-1"; Rec.timestamp := 1767225600000;
          Rec.siteId := Some "site-1"; Rec.siteName := Some "Site Name";
          Rec.equipmentId := Some "equip-1"; Rec.type := Some "CH4";
          Rec.mass := StringToNumber "12.34"; Rec.unit := Some "kg";
          Rec.scanDuration := number_of_N 10%N;
          Rec.confidence := StringToNumber "0.9";
          Rec.numDetections := number_of_N 2%N;
          Rec.detections := JArray [] |}.
Proof. vm_compute. reflexivity. Qed.

Example mapRow_bad_number :
  mapRow (Samples.row_with "confidence" "high")
  = Throw (Error "Invalid number: high").
Proof. vm_compute. reflexivity. Qed.

Example mapRow_short_row :
  mapRow (delete "numDetections" Samples.row)
  = Throw (Error "Invalid int: undefined").
Proof. vm_compute. reflexivity. Qed.

Example mapRow_bad_detections :
  exists r, mapRow (Samples.row_with "detections" "not-json") = Ok r
            /\ Rec.detections r = JArray [].
Proof. eexists. split; vm_compute; reflexivity. Qed.

(** Test "ensureIndexes creates expected indexes". *)
Example ensureIndexes_names :
  (name <$> ensureIndexes) = ["by_id"; "by_scope_time"; "by_site_time"]
  /\ (unique <$> head ensureIndexes) = Some true.
Proof. split; reflexivity. Qed.

(** ** The loader *)

(** A first run inserts the good rows; a second run over the same input
    inserts nothing and skips them all. *)
Example rerun_inserts_nothing :
  let rows := [Samples.row; Samples.row_with "id" "uuid-2";
               Samples.row_with "mass" "12abc"] in
  Samples.seen (main None None rows Samples.empty_coll) = Some (2%Z, 1%Z, 2)
  /\ Samples.seen (main None None rows
             {| validator := fun _ => true;
                contents := [Samples.record "uuid-1" 0; Samples.record "uuid-2" 0] |})
     = Some (0%Z, 3%Z, 2).
Proof. split; vm_compute; reflexivity. Qed.

(** With a batch size of 1 every accepted row is flushed at once; here
    each flush settles before the input ends. *)
Example small_batches :
  Samples.seen (main (Some "1") None
                  [Samples.row; Samples.row; Samples.row_with "id" "x"]
                  Samples.empty_coll) = Some (2%Z, 1%Z, 2).
Proof. vm_compute. reflexivity. Qed.

(** With a batch size of 2 and three rows, the input ending while the
    flush of the first two is in flight: DONE reports no row, and the
    third row is still with the parser. *)
Example input_ends_during_a_flush :
  exists docs,
    main (Some "2") (Some 0)
      [Samples.row; Samples.row_with "id" "b"; Samples.row_with "id" "c"]
      Samples.empty_coll
    = Done {| batch := []; inserted := 0; skipped := 0 |} docs
        [Samples.row_with "id" "c"] Samples.empty_coll
    /\ length docs = 2.
Proof. eexists. split; vm_compute; reflexivity. Qed.

Example unreachable_store_aborts :
  main None None [Samples.row] Offline
  = NotStarted (Error "connect ECONNREFUSED").
Proof. vm_compute. reflexivity. Qed.

(** ** The route (tests of emissions.routes) *)

Example invalid_from_400 :
  plan (Samples.query (Some "not-a-date") 100 None)
  = inl (SendError 400 "Invalid 'from' timestamp").
Proof. vm_compute. reflexivity. Qed.

Example cursorTs_without_cursorId_400 :
  plan {| Query.siteId := "s1"; Query.equipmentId := "e1";
          Query.from := None; Query.to := None;
          Query.confidenceMin := StringToNumber "0.75"; Query.limit := 100;
          Query.includeDetections := false;
          Query.cursorTs := Some "2026-01-01T00:00:00.000Z";
          Query.cursorId := None |}
  = inl (SendError 400 "Both cursorTs and cursorId are required together").
Proof. vm_compute. reflexivity. Qed.

Example invalid_cursorId_400 :
  plan (Samples.query None 100
          (Some {| cursorTs := "2026-01-01T00:00:00.000Z";
                   cursorId := "not-an-objectid" |}))
  = inl (SendError 400 "Invalid 'cursorId' ObjectId").
Proof. vm_compute. reflexivity. Qed.

Example from_after_to_400 :
  plan {| Query.siteId := "s1"; Query.equipmentId := "e1";
          Query.from := Some "2099-01-01T00:00:00.000Z";
          Query.to := Some "2000-01-01T00:00:00.000Z";
          Query.confidenceMin := StringToNumber "0.75"; Query.limit := 100;
          Query.includeDetections := false;
          Query.cursorTs := None; Query.cursorId := None |}
  = inl (SendError 400 "'from' must be <= 'to'").
Proof. vm_compute. reflexivity. Qed.

(** Three matching records and limit 2: two items and a cursor, then the
    one that is left and no cursor. *)
Example two_pages :
  Samples.summary (run Samples.stored (handler (Samples.query None 2 None)))
  = Some (2, Some {| cursorTs := "1970-01-01T00:00:01.000Z";
                     cursorId := "000000000000000000000007" |}, [6%N; 7%N])
  /\ Samples.summary (run Samples.stored
                (handler (Samples.query None 2
                   (Some {| cursorTs := "1970-01-01T00:00:01.000Z";
                            cursorId := "000000000000000000000007" |}))))
     = Some (1, None, [5%N]).
Proof. split; vm_compute; reflexivity. Qed.

Example a_store_error_is_a_500 :
  respond (Samples.query None 2 None) (Throw (Error "topology was destroyed"))
  = SendError 500 "Internal server error".
Proof. reflexivity. Qed.

End Examples.

(* ================================================================== *)
(** * More on the normalizer and the loader                             *)
(* ================================================================== *)

Module LoaderMore.
Import JS Words Seed Notions NormalizerFacts LoaderFacts.

Section with_host.
Context `{Host}.

(** X1. A row is accepted exactly when its five conversions succeed: the
    timestamp is there and parses, mass and confidence are not NaN, and
    scanDuration and numDetections start with a decimal digit after white
    space and sign.  No other column decides. *)
Theorem mapRow_accepts_iff (row : Row) :
  (exists r, mapRow row = Ok r) <->
  (exists s t, row !! "timestamp" = Some s /\ Date_parse s = Some t)
  /\ isNaN (ToNumber (row !! "mass")) = false
  /\ (leading_int (row !! "scanDuration")).2 <> []
  /\ isNaN (ToNumber (row !! "confidence")) = false
  /\ (leading_int (row !! "numDetections")).2 <> [].
Proof.
  split.
  - intros [r (Hts & Hm & Hsd & Hc & Hnd)%mapRow_Ok].
    apply toNumber_Ok in Hm as [-> Hm], Hc as [-> Hc].
    apply toInt_Ok in Hsd as [Hsd _], Hnd as [Hnd _].
    split; [|done]. unfold toDate in Hts.
    destruct (row !! "timestamp") as [s|]; [|done]. simpl in Hts.
    destruct (Date_parse s) as [t|] eqn:Ht; [|done]. eauto.
  - intros ((s & t & Hs & Ht) & Hm & Hsd & Hc & Hnd).
    destruct (mapRow_complete row t (ToNumber (row !! "mass"))
      (number_of_decimal (leading_int (row !! "scanDuration")).1
         (digits_value 10 (leading_int (row !! "scanDuration")).2) 0)
      (ToNumber (row !! "confidence"))
      (number_of_decimal (leading_int (row !! "numDetections")).1
         (digits_value 10 (leading_int (row !! "numDetections")).2) 0))
      as (r & Hr & _).
    + unfold toDate. rewrite Hs. simpl. by rewrite Ht.
    + by apply toNumber_Ok.
    + rewrite toInt_leading.
      destruct (leading_int (row !! "scanDuration")) as [neg [|d ds]]; done.
    + by apply toNumber_Ok.
    + rewrite toInt_leading.
      destruct (leading_int (row !! "numDetections")) as [neg [|d ds]]; done.
    + eauto.
Qed.

(** X2. The detections column never decides whether a row is accepted:
    with any text in it the row is accepted or refused as before, with the
    same error or the same other fields, and a text that is not JSON gives
    the empty list. *)
Theorem detections_never_fail_a_row (row : Row) (text : string) :
  match mapRow row, mapRow (<["detections" := text]> row) with
  | Ok r, Ok r' =>
      r' = {| Rec.id := Rec.id r; Rec.timestamp := Rec.timestamp r;
              Rec.siteId := Rec.siteId r; Rec.siteName := Rec.siteName r;
              Rec.equipmentId := Rec.equipmentId r; Rec.type := Rec.type r;
              Rec.mass := Rec.mass r; Rec.unit := Rec.unit r;
              Rec.scanDuration := Rec.scanDuration r;
              Rec.confidence := Rec.confidence r;
              Rec.numDetections := Rec.numDetections r;
              Rec.detections := safeJsonParse (Some text) |}
      /\ (JSON_parse text = None -> Rec.detections r' = JArray [])
  | Throw e, Throw e' => e = e'
  | _, _ => False
  end.
Proof.
  unfold mapRow. rewrite !lookup_insert_ne by done. rewrite lookup_insert_eq.
  destruct (toDate _) as [ts|]; [|done].
  destruct (toNumber (row !! "mass")) as [m|]; [|done].
  destruct (toInt (row !! "scanDuration")) as [sd|]; [|done].
  destruct (toNumber (row !! "confidence")) as [c|]; [|done].
  destruct (toInt (row !! "numDetections")) as [nd|]; [|done].
  simpl. split; [done|]. unfold safeJsonParse. simpl. by intros ->.
Qed.

Section any_collection.
Context {C : Type} `{Collection C} `{Client C}.
Variable env : option string.

Lemma stream_refused rows : forall overtaken (v : vars) (c : C),
  Forall (fun row => exists e, mapRow row = Throw e) rows ->
  batch v = [] ->
  stream env overtaken rows v c =
    Done {| batch := []; inserted := inserted v;
            skipped := skipped v + Z.of_nat (length rows) |} [] [] c.
Proof.
  induction rows as [|row rows IH]; intros overtaken v c Hrows Hb.
  - cbn [stream]. rewrite flushBatch_empty by done. simpl.
    rewrite Z.add_0_r, <- Hb. by destruct v.
  - apply Forall_cons in Hrows as [[e He] Hrows]. cbn [stream].
    rewrite He, IH by done. cbn [batch inserted skipped length].
    do 2 f_equal. lia.
Qed.

(** X3. Rows the normalizer refuses never reach the collection and never
    end the run: once the server is reached and the indexes are built,
    over an input of such rows alone the run ends with DONE, every row
    counted as skipped, nothing inserted, nothing in flight and the
    collection as it was, whenever the input ends and whatever
    [insertMany] would answer. *)
Theorem refused_rows_never_reach_the_store (overtaken : option nat)
    (rows : list Row) (c0 c : C) (u : unit) :
  connect c0 = Ok u -> createIndexes c0 ensureIndexes = Ok c ->
  Forall (fun row => exists e, mapRow row = Throw e) rows ->
  main env overtaken rows c0 =
    Done {| batch := []; inserted := 0;
            skipped := Z.of_nat (length rows) |} [] [] c.
Proof.
  intros Hconnect Hindexes Hrows.
  rewrite (main_started _ _ _ _ _ _ Hconnect Hindexes).
  by rewrite stream_refused.
Qed.

Lemma flushBatch_empties (v v' : vars) (c c' : C) :
  flushBatch v c = Normal v' c' -> batch v' = [].
Proof.
  unfold flushBatch. destruct (batch v) as [|d docs] eqn:Hb.
  - by intros [= <- _].
  - destruct (insertMany c (d :: docs)) as [[n|e] c1].
    + by intros [= <- _].
    + destruct (writeErrors e); [by intros [= <- _]|done].
Qed.

Section buffer.
Variable b : nat.
Hypothesis b_positive : 0 < b.
Hypothesis flushes_at_b :
  geb (number_of_N (N.of_nat b)) (BATCH_SIZE env) = true.

Lemma on_data_buffer row (v v' : vars) (c c' : C) :
  length (batch v) < b ->
  on_data env row v c = Normal v' c' -> length (batch v') < b.
Proof.
  intros Hv. unfold on_data. destruct (mapRow row) as [r|e].
  - cbn [batch]. destruct (decide (length (batch v ++ [r]) = b)) as [Hb|Hb].
    + rewrite Hb, flushes_at_b. intros Hf.
      by rewrite (flushBatch_empties _ _ _ _ Hf).
    + assert (length (batch v ++ [r]) < b) as Hlt.
      { rewrite length_app. rewrite length_app in Hb. simpl in *. lia. }
      destruct (geb (number_of_N (N.of_nat (length (batch v ++ [r])))) _).
      * intros Hf. by rewrite (flushBatch_empties _ _ _ _ Hf).
      * by intros [= <- _].
  - by intros [= <- _].
Qed.

Lemma flushBatch_handed (v : vars) (c : logged C) :
  exists c',
    handed c' = handed c ++ match batch v with [] => [] | _ => [batch v] end
    /\ ((exists v', flushBatch v c = Normal v' c' /\ batch v' = [])
        \/ (exists e v', flushBatch v c = Abrupt e v' c')).
Proof.
  unfold flushBatch. destruct (batch v) as [|d docs] eqn:Hb.
  - exists c. rewrite app_nil_r. split; [done|]. left. by exists v.
  - cbn [insertMany logged_Collection].
    destruct (insertMany (inner c) (d :: docs)) as [[n|e] c1].
    + eexists. split; [|left; eexists; split; done]. done.
    + destruct (writeErrors e).
      * eexists. split; [|left; eexists; split; done]. done.
      * eexists. split; [|right; eexists _, _; done]. done.
Qed.

Local Abbreviation fits := (fun docs : list Rec.t => 0 < length docs <= b).

Lemma stream_handed rows : forall overtaken (v : vars) (c : logged C),
  length (batch v) < b -> Forall fits (handed c) ->
  Forall fits (handed_by (stream env overtaken rows v c)).
Proof.
  induction rows as [|row rows IH]; intros overtaken v c Hv Hc; cbn [stream].
  - destruct (flushBatch_handed v c) as (c' & Hc' & Hres).
    assert (Forall fits (handed c')) as Hall.
    { rewrite Hc'. apply Forall_app. split; [done|].
      destruct (batch v) eqn:Hb; [done|].
      apply Forall_singleton. simpl in *. lia. }
    destruct Hres as [(v' & -> & _)|(e & v' & ->)]; cbn [handed_by];
      by rewrite ?app_nil_r.
  - destruct (mapRow row) as [r|e]; [|by apply IH].
    remember {| batch := batch v ++ [r]; inserted := inserted v;
                skipped := skipped v |} as v1 eqn:Ev1.
    assert (length (batch v1) = S (length (batch v))) as Hlen.
    { rewrite Ev1. cbn [batch]. rewrite length_app. simpl. lia. }
    assert (Forall fits (handed c
                         ++ match batch v1 with [] => [] | _ => [batch v1] end))
      as Hc1.
    { apply Forall_app. split; [done|]. destruct (batch v1) eqn:Hb1; [done|].
      apply Forall_singleton. simpl in *. lia. }
    destruct (geb (number_of_N (N.of_nat (length (batch v1)))) _) eqn:Hgeb.
    + destruct overtaken as [[|k]|]; cbn [fmap option_fmap option_map pred].
      * exact Hc1.
      * destruct (flushBatch_handed v1 c)
          as (c' & Hc' & [(v' & -> & Hb')|(e & v' & ->)]).
        -- apply IH; [rewrite Hb'; simpl; lia|]. by rewrite Hc'.
        -- cbn [handed_by]. by rewrite Hc'.
      * destruct (flushBatch_handed v1 c)
          as (c' & Hc' & [(v' & -> & Hb')|(e & v' & ->)]).
        -- apply IH; [rewrite Hb'; simpl; lia|]. by rewrite Hc'.
        -- cbn [handed_by]. by rewrite Hc'.
    + apply IH; [|done].
      destruct (decide (length (batch v1) = b)) as [Hb|Hb]; [|lia].
      rewrite Hb, flushes_at_b in Hgeb. done.
Qed.

(** X4. The buffer stays bounded: if the test [batch.length >=
    BATCH_SIZE] holds at length [b], then after any number of rows that the
    loader takes the batch holds fewer than [b] records; and in a whole
    run, however it ends, every call of [insertMany] is handed at least
    one and at most [b] documents. *)
Theorem buffer_stays_below_batch_size (overtaken : option nat)
    (rows : list Row) (c : C) :
  (forall v' c',
     consume env rows {| batch := []; inserted := 0; skipped := 0 |} c
       = Normal v' c' ->
     length (batch v') < b)
  /\ Forall (fun docs => 0 < length docs <= b)
       (handed_by (main env overtaken rows {| inner := c; handed := [] |})).
Proof.
  split.
  - assert (forall rows (v v' : vars) (c c' : C),
              length (batch v) < b ->
              consume env rows v c = Normal v' c' -> length (batch v') < b)
      as Hgen.
    { clear rows c.
      induction rows as [|row rows IH]; intros v v' c c' Hv; cbn [consume].
      - by intros [= <- _].
      - destruct (on_data env row v c) as [v1 c1|] eqn:Hrow; [|done].
        apply IH. by eapply on_data_buffer. }
    intros v' c'. apply Hgen. simpl. exact b_positive.
  - unfold main. cbn [connect createIndexes logged_Client inner handed].
    destruct (connect c); [|done].
    destruct (createIndexes c ensureIndexes); [|done].
    by apply stream_handed.
Qed.

End buffer.

End any_collection.
End with_host.

(** ** The run against the unique index, row by row *)

Lemma insert_each_snoc valid docs r : forall i have,
  insert_each valid i (docs ++ [r]) have =
    let '(es, have') := insert_each valid i docs have in
    if negb (valid r)
    then (es ++ [{| code := 121; index := i + length docs |}], have')
    else if bool_decide (Rec.id r ∈ map Rec.id have')
         then (es ++ [{| code := 11000; index := i + length docs |}], have')
         else (es, have' ++ [r]).
Proof.
  induction docs as [|d docs IH]; intros i have; cbn [app insert_each].
  - rewrite Nat.add_0_r. destruct (negb (valid r)); [done|].
    by destruct (bool_decide _).
  - replace (i + length (d :: docs)) with (S i + length docs) by (simpl; lia).
    destruct (negb (valid d)); [|destruct (bool_decide (Rec.id d ∈ _))].
    + rewrite IH. destruct (insert_each valid (S i) docs have) as [es have'].
      destruct (negb (valid r)); [done|]. by destruct (bool_decide _).
    + rewrite IH. destruct (insert_each valid (S i) docs have) as [es have'].
      destruct (negb (valid r)); [done|]. by destruct (bool_decide _).
    + apply IH.
Qed.

Lemma dupes_snoc es e :
  dupes (es ++ [e]) = (dupes es + if bool_decide (code e = 11000%Z) then 1 else 0)%Z.
Proof.
  unfold dupes. rewrite filter_app, length_app, filter_cons.
  case_bool_decide; rewrite decide_bool_decide;
    [rewrite bool_decide_eq_true_2 by done|rewrite bool_decide_eq_false_2 by done];
    simpl; lia.
Qed.

Lemma triple_eq {A} (a a' b b' : Z) (l l' : A) :
  a = a' -> b = b' -> l = l' -> (a, b, l) = (a', b', l').
Proof. by intros -> -> ->. Qed.

Section unique_index.
Context `{Host}.
Variable env : option string.

Lemma flushBatch_settled (v : vars) (c : coll) :
  exists v' c',
    flushBatch v c = Normal v' c' /\ batch v' = []
    /\ validator c' = validator c
    /\ (inserted v', skipped v', contents c') = settled v c.
Proof.
  unfold flushBatch, settled. destruct (batch v) as [|d docs] eqn:Hb.
  - exists v, c. cbn [insert_each].
    split; [done|]. split; [done|]. split; [done|].
    apply triple_eq; [lia|unfold dupes; simpl; lia|done].
  - cbn [insertMany coll_Collection]. unfold coll_insertMany.
    destruct (insert_each (validator c) 0 (d :: docs) (contents c))
      as [[|e es] have].
    + eexists _, _. split; [done|]. cbn.
      split; [done|]. split; [done|].
      apply triple_eq; [done|unfold dupes; simpl; lia|done].
    + eexists _, _. split; [done|]. cbn.
      split; [done|]. split; [done|].
      apply triple_eq; [|done|done].
      destruct (Z.of_nat (length have) - Z.of_nat (length (contents c)) =? 0)%Z
        eqn:E; lia.
Qed.

Lemma settled_empty (v : vars) (c : coll) :
  batch v = [] -> settled v c = (inserted v, skipped v, contents c).
Proof.
  unfold settled. intros ->. cbn [insert_each].
  apply triple_eq; [lia|unfold dupes; simpl; lia|done].
Qed.

Lemma settled_push (v : vars) (c : coll) r :
  settled {| batch := batch v ++ [r]; inserted := inserted v;
             skipped := skipped v |} c
  = offer (validator c) (settled v c) r.
Proof.
  unfold settled, offer. cbn [batch inserted skipped].
  rewrite insert_each_snoc.
  destruct (insert_each (validator c) 0 (batch v) (contents c)) as [es have].
  destruct (negb (validator c r)).
  - apply triple_eq; [done|rewrite dupes_snoc; simpl; lia|done].
  - destruct (bool_decide (Rec.id r ∈ map Rec.id have)).
    + apply triple_eq; [done|rewrite dupes_snoc; simpl; lia|done].
    + apply triple_eq; [rewrite length_app; simpl; lia|done|done].
Qed.

Lemma on_data_settled row (v : vars) (c : coll) :
  exists v' c',
    on_data env row v c = Normal v' c' /\ validator c' = validator c
    /\ settled v' c' = tally (validator c) (settled v c) row.
Proof.
  unfold on_data, tally. destruct (mapRow row) as [r|e].
  - rewrite <- settled_push.
    set (v1 := {| batch := batch v ++ [r]; inserted := inserted v;
                  skipped := skipped v |}).
    destruct (geb _ _).
    + destruct (flushBatch_settled v1 c) as (v' & c' & Hf & Hb & Hv & Hs).
      exists v', c'. split; [done|]. split; [done|].
      by rewrite (settled_empty v' c' Hb).
    + by exists v1, c.
  - eexists _, c. split; [done|]. split; [done|].
    unfold settled. cbn [batch inserted skipped].
    destruct (insert_each (validator c) 0 (batch v) (contents c)) as [es have].
    apply triple_eq; [done|lia|done].
Qed.

Lemma consume_settled rows : forall (v : vars) (c : coll),
  exists v' c',
    consume env rows v c = Normal v' c' /\ validator c' = validator c
    /\ settled v' c' = ledger (validator c) rows (settled v c).
Proof.
  induction rows as [|row rows IH]; intros v c; cbn [consume].
  - by exists v, c.
  - destruct (on_data_settled row v c) as (v1 & c1 & -> & Hv1 & Hs1).
    destruct (IH v1 c1) as (v' & c' & -> & Hv' & Hs').
    exists v', c'. split; [done|]. split; [congruence|].
    rewrite Hs', Hs1, Hv1. done.
Qed.

(** The unique index is built exactly when no two documents share their
    [id]. *)
Lemma coll_indexes (c : coll) :
  createIndexes c ensureIndexes
  = if bool_decide (NoDup (map Rec.id (contents c)))
    then Ok c else Throw (Error "E11000 duplicate key error collection").
Proof.
  cbn [createIndexes coll_Client]. unfold coll_createIndexes.
  by destruct (bool_decide (NoDup _)).
Qed.

(** With no flush in flight at the end of the input, the batched run
    ends where the loader without batch ends. *)
Lemma main_ledger (rows : list Row) (c : coll) :
  NoDup (map Rec.id (contents c)) ->
  exists ins sk have,
    ledger (validator c) rows (0%Z, 0%Z, contents c) = (ins, sk, have)
    /\ main env None rows c =
         Done {| batch := []; inserted := ins; skipped := sk |} [] []
              {| validator := validator c; contents := have |}.
Proof.
  intros Hnd. unfold main. cbn [connect coll_Client].
  rewrite coll_indexes, bool_decide_eq_true_2 by done.
  rewrite LoaderFacts.stream_None.
  destruct (consume_settled rows {| batch := []; inserted := 0; skipped := 0 |} c)
    as (v1 & c1 & -> & Hv1 & Hs1).
  rewrite (settled_empty {| batch := []; inserted := 0; skipped := 0 |} c eq_refl)
    in Hs1.
  simpl in Hs1.
  destruct (flushBatch_settled v1 c1) as (v' & c' & -> & Hb & Hv' & Hs').
  rewrite Hs1 in Hs'.
  exists (inserted v'), (skipped v'), (contents c'). split; [done|].
  destruct v', c'. simpl in *. subst. by rewrite Hv1.
Qed.

End unique_index.

Section ledger.
Context `{Host}.
Variable valid : Rec.t -> bool.

Lemma accepted_cons row rows :
  accepted (row :: rows) =
    match mapRow row with
    | Ok r => r :: accepted rows
    | Throw _ => accepted rows
    end.
Proof. unfold accepted. simpl. by destruct (mapRow row). Qed.

Lemma length_accepted rows : length (accepted rows) <= length rows.
Proof.
  induction rows as [|row rows IH]; [done|]. rewrite accepted_cons.
  destruct (mapRow row); simpl; lia.
Qed.

(** Offered again, records whose [id]s are all present change nothing
    but the skipped count. *)
Lemma ledger_known rows : forall i k have,
  (forall r, r ∈ accepted rows -> valid r = true -> Rec.id r ∈ map Rec.id have) ->
  exists k',
    ledger valid rows (i, k, have) = (i, k', have)
    /\ ((forall r, valid r = true) -> k' = (k + Z.of_nat (length rows))%Z).
Proof.
  induction rows as [|row rows IH]; intros i k have Hknown.
  - exists k. split; [done|]. intros _. simpl. lia.
  - rewrite accepted_cons in Hknown. unfold ledger in *. cbn [fold_left].
    unfold tally at 2. destruct (mapRow row) as [r|e].
    + unfold offer. destruct (valid r) eqn:Hr; simpl.
      * rewrite bool_decide_eq_true_2 by (apply Hknown; [by left|done]).
        destruct (IH i (k + 1)%Z have) as (k' & -> & Hk').
        { intros r' Hr'. apply Hknown. by right. }
        exists k'. split; [done|]. intros Hall. rewrite (Hk' Hall).
        cbn [length]. lia.
      * destruct (IH i k have) as (k' & -> & Hk').
        { intros r' Hr'. apply Hknown. by right. }
        exists k'. split; [done|]. intros Hall. rewrite Hall in Hr. done.
    + destruct (IH i (k + 1)%Z have Hknown) as (k' & -> & Hk').
      exists k'. split; [done|]. intros Hall. rewrite (Hk' Hall).
      cbn [length]. lia.
Qed.

(** At the end the collection holds what it held, and the [id] of every
    accepted record the validator lets through. *)
Lemma ledger_ids rows : forall i k have i' k' have',
  ledger valid rows (i, k, have) = (i', k', have') ->
  (forall x, x ∈ map Rec.id have -> x ∈ map Rec.id have')
  /\ (forall r, r ∈ accepted rows -> valid r = true ->
        Rec.id r ∈ map Rec.id have').
Proof.
  induction rows as [|row rows IH]; intros i k have i' k' have'.
  - intros [= <- <- <-]. split; [done|]. by intros r ?%elem_of_nil.
  - unfold ledger in *. cbn [fold_left]. rewrite accepted_cons.
    unfold tally at 2. destruct (mapRow row) as [r|e].
    + unfold offer. destruct (valid r) eqn:Hr; simpl.
      * case_bool_decide as Hin.
        -- intros [Hold Hnew]%IH. split; [done|].
           intros r' [->|Hr']%elem_of_cons Hv; [by apply Hold|by apply Hnew].
        -- intros [Hold Hnew]%IH. rewrite map_app in Hold. simpl in Hold.
           split.
           ++ intros x Hx. apply Hold, elem_of_app. by left.
           ++ intros r' [->|Hr']%elem_of_cons Hv; [|by apply Hnew].
              apply Hold, elem_of_app. right. by left.
      * intros [Hold Hnew]%IH. split; [done|].
        intros r' [->|Hr']%elem_of_cons Hv; [congruence|by apply Hnew].
    + intros [Hold Hnew]%IH. done.
Qed.

(** Records with [id]s that are new and distinct are all inserted, in
    order. *)
Lemma ledger_fresh rows : forall i k have,
  (forall r, valid r = true) ->
  NoDup (Rec.id <$> accepted rows) ->
  (forall r, r ∈ accepted rows -> Rec.id r ∉ map Rec.id have) ->
  ledger valid rows (i, k, have) =
    ((i + Z.of_nat (length (accepted rows)))%Z,
     (k + (Z.of_nat (length rows) - Z.of_nat (length (accepted rows))))%Z,
     have ++ accepted rows).
Proof.
  induction rows as [|row rows IH]; intros i k have Hall Hnd Hnew.
  - simpl. apply triple_eq; [lia|lia|by rewrite app_nil_r].
  - unfold ledger in *. cbn [fold_left]. rewrite accepted_cons in *.
    unfold tally at 2. destruct (mapRow row) as [r|e].
    + unfold offer. rewrite Hall. simpl.
      rewrite fmap_cons in Hnd. apply NoDup_cons in Hnd as [Hr Hnd].
      rewrite bool_decide_eq_false_2 by (apply Hnew; by left).
      rewrite IH; [|done|done|].
      * apply triple_eq; [cbn [length]; lia|cbn [length]; lia|].
        by rewrite <- app_assoc.
      * intros r' Hr'. rewrite map_app, elem_of_app. intros [Hin|Hin].
        -- by apply (Hnew r'); [right|].
        -- simpl in Hin. apply elem_of_cons in Hin as [Heq|Hin];
             [|by apply elem_of_nil in Hin].
           apply Hr. rewrite <- Heq. apply list_elem_of_fmap. eauto.
    + rewrite IH by done. apply triple_eq; [done|cbn [length]; lia|done].
Qed.

(** The collection keeps its [id]s distinct. *)
Lemma ledger_distinct rows : forall i k have i' k' have',
  ledger valid rows (i, k, have) = (i', k', have') ->
  NoDup (map Rec.id have) -> NoDup (map Rec.id have').
Proof.
  induction rows as [|row rows IH]; intros i k have i' k' have'.
  - by intros [= <- <- <-].
  - unfold ledger in *. cbn [fold_left]. unfold tally at 2.
    destruct (mapRow row) as [r|e]; [|apply IH].
    unfold offer. destruct (valid r); simpl; [|apply IH].
    case_bool_decide as Hin; [apply IH|].
    intros Hl Hnd. apply (IH _ _ _ _ _ _ Hl).
    rewrite map_app. apply NoDup_app. split; [done|]. split.
    + intros x Hx ->%list_elem_of_singleton. done.
    + simpl. apply NoDup_singleton.
Qed.

End ledger.

Section runs.
Context `{Host}.

Lemma main_needs_index env overtaken rows (c : coll) :
  ~ NoDup (map Rec.id (contents c)) ->
  main env overtaken rows c
  = NotStarted (Error "E11000 duplicate key error collection").
Proof.
  intros Hnd. unfold main. cbn [connect coll_Client].
  by rewrite coll_indexes, bool_decide_eq_false_2.
Qed.

(** X5. When no flush is in flight at the end of the input, the batch
    size is a matter of speed only: against the collection with the unique
    index, whatever its contents and validator, the run ends the same way,
    with the same counters and the same collection, for every value of
    BATCH_SIZE. *)
Theorem batch_size_is_invisible (env env' : option string) (rows : list Row)
    (c : coll) :
  main env None rows c = main env' None rows c.
Proof.
  destruct (decide (NoDup (map Rec.id (contents c)))) as [Hnd|Hnd].
  - destruct (main_ledger env rows c Hnd) as (ins & sk & have & Hl & ->).
    destruct (main_ledger env' rows c Hnd) as (ins' & sk' & have' & Hl' & ->).
    congruence.
  - by rewrite !main_needs_index.
Qed.

(** X6. A second run over the same input inserts nothing: run again on
    the collection that a run left which ended with nothing in flight, with
    any batch size and again no flush in flight at the end of the input,
    the loader ends with DONE, inserts no record and leaves the collection
    as it is; with no validator on the collection it counts every row as
    skipped. *)
Theorem second_run_inserts_nothing (env env' : option string)
    (rows : list Row) (c c1 : coll) (v1 : vars) :
  main env None rows c = Done v1 [] [] c1 ->
  exists v2,
    main env' None rows c1 = Done v2 [] [] c1
    /\ batch v2 = [] /\ inserted v2 = 0%Z
    /\ ((forall r, validator c r = true) ->
        skipped v2 = Z.of_nat (length rows)).
Proof.
  destruct (decide (NoDup (map Rec.id (contents c)))) as [Hnd|Hnd];
    [|by rewrite main_needs_index].
  destruct (main_ledger env rows c Hnd) as (ins & sk & have & Hl & ->).
  intros [= <- <-].
  destruct (ledger_ids _ _ _ _ _ _ _ _ Hl) as [_ Hnew].
  pose proof (ledger_distinct _ _ _ _ _ _ _ _ Hl Hnd) as Hnd1.
  destruct (main_ledger env' rows {| validator := validator c; contents := have |}
              Hnd1)
    as (ins' & sk' & have' & Hl' & ->).
  cbn [validator contents] in Hl'.
  destruct (ledger_known (validator c) rows 0%Z 0%Z have Hnew) as (k' & Hk & Hall).
  rewrite Hk in Hl'. injection Hl' as <- <- <-.
  eexists. split; [done|]. cbn. split; [done|]. split; [done|].
  intros Hv. rewrite (Hall Hv). lia.
Qed.

(** X7. A first load loses nothing when no flush is in flight at the
    end of the input: when the collection holds distinct [id]s and has no
    validator, and the accepted records have distinct [id]s, none of them
    present in the collection, the run inserts every accepted record, in
    input order, behind what the collection held; inserted is their
    number and skipped the number of refused rows. *)
Theorem fresh_records_are_all_inserted (env : option string)
    (rows : list Row) (c : coll) :
  NoDup (map Rec.id (contents c)) ->
  (forall r, validator c r = true) ->
  NoDup (Rec.id <$> accepted rows) ->
  (forall r, r ∈ accepted rows -> Rec.id r ∉ map Rec.id (contents c)) ->
  main env None rows c =
    Done {| batch := [];
            inserted := Z.of_nat (length (accepted rows));
            skipped := Z.of_nat (length rows)
                       - Z.of_nat (length (accepted rows)) |} [] []
         {| validator := validator c;
            contents := contents c ++ accepted rows |}.
Proof.
  intros Hc Hv Hnd Hnew.
  destruct (main_ledger env rows c Hc) as (ins & sk & have & Hl & ->).
  rewrite (ledger_fresh (validator c) rows 0%Z 0%Z (contents c) Hv Hnd Hnew) in Hl.
  injection Hl as <- <- <-. done.
Qed.

End runs.

Section in_flight.
Context `{Host} {C : Type} `{Collection C} `{Client C}.
Variable env : option string.
Variable Inv : C -> Prop.
Hypothesis insertMany_accounted : forall c docs,
  Inv c -> docs <> [] ->
  accounted docs (insertMany c docs).1 /\ Inv (insertMany c docs).2.

(** X18. Whenever the input ends, no row is lost from the books of the
    run: with a collection whose answers account for their batches, the
    rows that DONE does not count as inserted or skipped are exactly as
    many as the documents of the flush in flight and the rows the parser
    still holds. *)
Theorem uncounted_rows_are_in_flight_or_unread (overtaken : option nat)
    (rows : list Row) (c0 c : C) (u : unit) :
  connect c0 = Ok u -> createIndexes c0 ensureIndexes = Ok c -> Inv c ->
  exists v flight unread c',
    main env overtaken rows c0 = Done v flight unread c'
    /\ (Z.of_nat (length rows) - (inserted v + skipped v)
        = Z.of_nat (length flight) + Z.of_nat (length unread))%Z.
Proof.
  intros Hconnect Hindexes Hc.
  rewrite (main_started _ _ _ _ _ _ Hconnect Hindexes).
  destruct (stream_accounted env Inv insertMany_accounted rows overtaken
              {| batch := []; inserted := 0; skipped := 0 |} c Hc)
    as (v & fl & un & c' & -> & _ & Hsum & _).
  exists v, fl, un, c'. split; [done|]. simpl in Hsum. lia.
Qed.

End in_flight.

Lemma refused_rows_never_reach_the_store_witness :
  main (H := IsoHost.host) (Some "1") (Some 0)
    [Samples.row_with "mass" "12abc"; Samples.row_with "timestamp" "yesterday"]
    Lost
  = Done {| batch := []; inserted := 0; skipped := 2 |} [] [] Lost.
Proof.
  apply (refused_rows_never_reach_the_store (H := IsoHost.host) (Some "1")
           (Some 0)
           [Samples.row_with "mass" "12abc";
            Samples.row_with "timestamp" "yesterday"] Lost Lost tt);
    [reflexivity|reflexivity|].
  repeat constructor; eexists; vm_compute; reflexivity.
Defined.

Lemma buffer_stays_below_batch_size_witness :
  let rows := [Samples.row; Samples.row_with "id" "b"; Samples.row_with "id" "c"] in
  let r := main (H := IsoHost.host) (Some "2") None rows
             {| inner := Samples.empty_coll; handed := [] |} in
  (length <$> handed_by r) = [2; 1]
  /\ Forall (fun docs => 0 < length docs <= 2) (handed_by r).
Proof.
  intros rows r. split; [vm_compute; reflexivity|].
  apply (buffer_stays_below_batch_size (H := IsoHost.host) (C := coll)
           (Some "2") 2 ltac:(lia) ltac:(vm_compute; reflexivity) None rows
           Samples.empty_coll).
Defined.

Lemma second_run_inserts_nothing_witness :
  exists v2,
    main (H := IsoHost.host) (Some "1") None
      [Samples.row; Samples.row_with "id" "b"]
      {| validator := fun _ => true;
         contents := accepted (H := IsoHost.host)
                       [Samples.row; Samples.row_with "id" "b"] |}
    = Done v2 [] []
        {| validator := fun _ => true;
           contents := accepted (H := IsoHost.host)
                         [Samples.row; Samples.row_with "id" "b"] |}
    /\ inserted v2 = 0%Z.
Proof.
  destruct (second_run_inserts_nothing (H := IsoHost.host) None (Some "1")
              [Samples.row; Samples.row_with "id" "b"] Samples.empty_coll
              {| validator := fun _ => true;
                 contents := accepted (H := IsoHost.host)
                               [Samples.row; Samples.row_with "id" "b"] |}
              {| batch := []; inserted := 2; skipped := 0 |})
    as (v2 & Hrun & _ & Hins & _).
  - vm_compute. reflexivity.
  - exists v2. split; [exact Hrun|exact Hins].
Defined.

Lemma fresh_records_are_all_inserted_witness :
  main (H := IsoHost.host) (Some "1") None
    [Samples.row; Samples.row_with "mass" "12abc"; Samples.row_with "id" "b"]
    Samples.empty_coll
  = Done {| batch := []; inserted := 2; skipped := 1 |} [] []
      {| validator := fun _ => true;
         contents := accepted (H := IsoHost.host)
                       [Samples.row; Samples.row_with "id" "b"] |}.
Proof.
  rewrite (fresh_records_are_all_inserted (H := IsoHost.host) (Some "1")
             [Samples.row; Samples.row_with "mass" "12abc";
              Samples.row_with "id" "b"] Samples.empty_coll).
  - vm_compute. reflexivity.
  - constructor.
  - intros r. reflexivity.
  - compute_done.
  - intros r _ Hin. simpl in Hin. by apply elem_of_nil in Hin.
Defined.

Lemma uncounted_rows_are_in_flight_or_unread_witness :
  exists v flight unread c',
    main (H := IsoHost.host) (Some "2") (Some 0)
      [Samples.row; Samples.row_with "id" "b"; Samples.row_with "id" "c"]
      Samples.empty_coll
    = Done v flight unread c'
    /\ (3 - (inserted v + skipped v)
        = Z.of_nat (length flight) + Z.of_nat (length unread))%Z.
Proof.
  apply (uncounted_rows_are_in_flight_or_unread (H := IsoHost.host) (Some "2")
           (fun c => forall r, validator c r = true) coll_accounted (Some 0)
           [Samples.row; Samples.row_with "id" "b"; Samples.row_with "id" "c"]
           Samples.empty_coll Samples.empty_coll tt);
    [reflexivity|reflexivity|intros r; reflexivity].
Defined.

End LoaderMore.

(* ================================================================== *)
(** * More on the route                                                 *)
(* ================================================================== *)

Module RouteMore.
Import JS Mongo Routes Words Notions PlanFacts PageFacts MongoFacts.

Local Abbreviation by_time := [(ByTimestamp, (-1)%Z); (ById, (-1)%Z)].

(** The documents [find] delivers, before the projection. *)
Local Abbreviation chosen coll req :=
  (limit_to (fr_limit req)
     (merge_sort (sorts_before (fr_sort req))
        (filter (fun d => matches (fr_filter req) d = true) coll))).

Lemma limit_to_take {A} n (l : list A) : exists k, limit_to n l = take k l.
Proof.
  unfold limit_to. destruct (n =? 0)%Z; [|by eexists].
  exists (length l). by rewrite take_ge.
Qed.

Lemma slice0_take {A} (l : list A) n : exists k, slice0 l n = take k l.
Proof. unfold slice0. destruct (n <? 0)%Z; by eexists. Qed.

Lemma slice0_fmap {A B} (f : A -> B) (l : list A) n :
  slice0 (f <$> l) n = f <$> slice0 l n.
Proof. unfold slice0. rewrite length_fmap. by destruct (n <? 0)%Z; rewrite fmap_take. Qed.

Lemma StronglySorted_take {A} (R : relation A) k (l : list A) :
  StronglySorted R l -> StronglySorted R (take k l).
Proof.
  rewrite <- (take_drop k l) at 1. apply StronglySorted_app_1_l.
Qed.

Section with_host.
Context `{Host}.

(** The parts of the query a request is planned into. *)
Lemma plan_parts q req :
  plan q = inr req ->
  exists gte lte,
    time_bound (Query.from q) "Invalid 'from' timestamp" = inr gte
    /\ time_bound (Query.to q) "Invalid 'to' timestamp" = inr lte
    /\ conds (fr_filter req) =
         [SiteIdEq (Query.siteId q); EquipmentIdEq (Query.equipmentId q);
          ConfidenceGte (Query.confidenceMin q)]
         ++ (match gte with Some a => [TimestampGte a] | None => [] end
             ++ match lte with Some b => [TimestampLte b] | None => [] end)
    /\ cursor_filter q = inr (or_ (fr_filter req)).
Proof.
  unfold plan.
  destruct (time_bound (Query.from q) _) as [r|gte]; [done|].
  destruct (time_bound (Query.to q) _) as [r|lte]; [done|].
  destruct (match gte with Some a => _ | None => _ end); [done|].
  destruct (cursor_filter q) as [r|cur]; [done|].
  intros [= <-]. by exists gte, lte.
Qed.

Lemma matches_satisfies q req d :
  plan q = inr req -> matches (fr_filter req) d = true -> satisfies q d.
Proof.
  intros (gte & lte & Hfrom & Hto & Hconds & _)%plan_parts.
  unfold matches. rewrite Hconds. intros [Hall _]%andb_prop.
  cbn [app forallb holds] in Hall.
  apply andb_prop in Hall as [Hsite Hall].
  apply andb_prop in Hall as [Hequip Hall].
  apply andb_prop in Hall as [Hconf Hall].
  apply bool_decide_eq_true in Hsite, Hequip.
  rewrite forallb_app in Hall. apply andb_prop in Hall as [Hgte Hlte].
  split; [done|]. split; [done|]. split.
  - intros s a Hs Ha.
    assert (time_bound (Query.from q) "Invalid 'from' timestamp" = inr (Some a))
      as Hb by (apply time_bound_inr; eauto).
    rewrite Hfrom in Hb. injection Hb as ->. simpl in Hgte.
    apply andb_prop in Hgte as [Hgte _]. by apply Z.leb_le.
  - intros s b Hs Hb.
    assert (time_bound (Query.to q) "Invalid 'to' timestamp" = inr (Some b))
      as Hb' by (apply time_bound_inr; eauto).
    rewrite Hto in Hb'. injection Hb' as ->. simpl in Hlte.
    apply andb_prop in Hlte as [Hlte _]. by apply Z.leb_le.
Qed.

(** A refusal names its reason with one of the messages of the route. *)
Lemma plan_refusal_message q r :
  plan q = inl r -> exists msg, r = SendError 400 msg /\ msg ∈ refusals.
Proof.
  unfold plan.
  destruct (time_bound (Query.from q) _) as [r1|gte] eqn:Hfrom.
  { apply time_bound_inl in Hfrom as [-> _]. intros [= <-].
    eexists. split; [done|]. by left. }
  destruct (time_bound (Query.to q) _) as [r2|lte] eqn:Hto.
  { apply time_bound_inl in Hto as [-> _]. intros [= <-].
    eexists. split; [done|]. right. by left. }
  destruct (match gte with Some a => _ | None => _ end).
  { intros [= <-]. eexists. split; [done|]. do 2 right. by left. }
  pose proof (cursor_filter_cases q) as Hcur.
  destruct (cursor_filter q) as [r3|cl]; [|done].
  destruct Hcur as (msg & -> & Hmsg & _). intros [= <-]. eauto.
Qed.

(** X8. Every request is either put to the collection as exactly one
    query, or it is invalid and refused with status 400 and one of the six
    messages of the route; nothing else is ever answered before the
    collection is asked. *)
Theorem request_is_queried_or_refused (q : Query.t) :
  (exists req, handler q = Find req (fun res => Ret (respond q res)))
  \/ (invalid q
      /\ exists msg, handler q = Ret (SendError 400 msg) /\ msg ∈ refusals).
Proof.
  unfold handler. destruct (plan q) as [r|req] eqn:Hplan.
  - right. split; [by eapply refused_is_invalid|].
    apply plan_refusal_message in Hplan as (msg & -> & Hmsg). eauto.
  - left. eauto.
Qed.

(** X9. Whatever the collection answers, a page holds a prefix of the
    answer with at most [limit] rows, its count is the number of its
    items, and a cursor is handed out only with a full page cut from a
    longer answer. *)
Theorem page_is_a_bounded_prefix (q : Query.t) (res : completion (list item))
    (p : page) :
  (0 <= Query.limit q)%Z ->
  respond q res = SendPage p ->
  exists docs,
    res = Ok docs
    /\ count p = length (items p)
    /\ items p = take (length (items p)) docs
    /\ (length (items p) <= Z.to_nat (Query.limit q))%nat
    /\ (nextCursor p <> None ->
        length (items p) = Z.to_nat (Query.limit q)
        /\ (Z.to_nat (Query.limit q) < length docs)%nat).
Proof.
  intros Hlimit. unfold respond. destruct res as [docs|e]; [|done].
  cbn [bind]. destruct (Query.limit q <? Z.of_nat (length docs))%Z eqn:Hmore.
  - apply Z.ltb_lt in Hmore.
    assert (slice0 docs (Query.limit q) = take (Z.to_nat (Query.limit q)) docs)
      as ->.
    { unfold slice0. destruct (Query.limit q <? 0)%Z eqn:E; [lia|done]. }
    assert (length (take (Z.to_nat (Query.limit q)) docs)
            = Z.to_nat (Query.limit q)) as Hlen
      by (rewrite length_take; lia).
    destruct (last (take (Z.to_nat (Query.limit q)) docs)) as [l|]; cbn [bind].
    + destruct (cursor_of l); cbn [bind]; [|done]. intros [= <-]. cbn.
      exists docs. rewrite Hlen. repeat split; try done; lia.
    + intros [= <-]. cbn. exists docs. rewrite Hlen.
      repeat split; try done; lia.
  - apply Z.ltb_ge in Hmore. cbn [bind]. intros [= <-]. cbn.
    exists docs. rewrite take_ge by done. repeat split; try done; lia.
Qed.

(** What the route makes of the projected documents the collection
    answers. *)
Lemma respond_projected q (docs : list document) :
  let more := (Query.limit q <? Z.of_nat (length docs))%Z in
  let ds := if more then slice0 docs (Query.limit q) else docs in
  respond q (Ok (project (projection q) <$> docs)) =
    SendPage {| count := length ds;
                siteId := Query.siteId q;
                equipmentId := Query.equipmentId q;
                nextCursor := if more then cursor_at <$> last ds else None;
                items := project (projection q) <$> ds |}.
Proof.
  intros more ds. unfold respond. cbn [bind]. rewrite length_fmap.
  fold more. subst ds. destruct more.
  - rewrite slice0_fmap, fmap_last, length_fmap.
    destruct (last (slice0 docs (Query.limit q))) as [d|]; cbn.
    + by rewrite PagingFacts.cursor_of_project.
    + done.
  - cbn. by rewrite length_fmap.
Qed.

Lemma run_handler coll q :
  run coll (handler q) =
    match plan q with
    | inl r => r
    | inr req => respond q (Ok (find coll req))
    end.
Proof. unfold handler. by destruct (plan q). Qed.

Lemma chosen_sorted coll q req :
  plan q = inr req ->
  StronglySorted (sorts_before by_time) (chosen coll req)
  /\ Forall (fun d => d ∈ coll /\ matches (fr_filter req) d = true)
       (chosen coll req).
Proof.
  intros (_ & -> & _)%plan_shape.
  destruct (limit_to_take (fr_limit req)
              (merge_sort (sorts_before by_time)
                 (filter (fun d => matches (fr_filter req) d = true) coll)))
    as [k ->].
  split.
  - apply StronglySorted_take, StronglySorted_merge_sort; apply _.
  - apply Forall_forall. intros d Hd%subseteq_take.
    rewrite merge_sort_Permutation in Hd.
    apply list_elem_of_filter in Hd. tauto.
Qed.

(** X10. The items of a page are stored documents of the collection that
    the request asks for: of its site and equipment, with a confidence at
    or above the floor and a timestamp inside the window; and they come in
    (timestamp desc, _id desc) order. *)
Theorem page_items_match_and_are_sorted (coll : list document) (q : Query.t)
    (p : page) :
  run coll (handler q) = SendPage p ->
  exists docs,
    items p = project (projection q) <$> docs
    /\ StronglySorted (sorts_before by_time) docs
    /\ Forall (fun d => d ∈ coll /\ satisfies q d) docs.
Proof.
  rewrite run_handler. destruct (plan q) as [r|req] eqn:Hplan.
  { apply plan_refusal in Hplan as [msg ->]. done. }
  destruct (chosen_sorted coll q req Hplan) as [Hsorted Hall].
  destruct (plan_shape q req Hplan) as (Hproj & _).
  unfold find. rewrite Hproj, respond_projected. intros [= <-]. cbn.
  eexists. split; [done|].
  assert (exists k,
    (if (Query.limit q <? Z.of_nat (length (chosen coll req)))%Z
     then slice0 (chosen coll req) (Query.limit q) else chosen coll req)
    = take k (chosen coll req)) as [k ->].
  { destruct (_ <? _)%Z; [apply slice0_take|].
    exists (length (chosen coll req)). by rewrite take_ge. }
  split; [by apply StronglySorted_take|].
  apply Forall_forall. intros d Hd%subseteq_take.
  apply (proj1 (Forall_forall _ _) Hall) in Hd as [Hd Hm].
  split; [done|]. by eapply matches_satisfies.
Qed.

Lemma find_depends_on_filter coll1 coll2 req (P : document -> Prop)
    `{forall d, Decision (P d)} :
  (forall d, matches (fr_filter req) d = true -> P d) ->
  filter P coll1 = filter P coll2 ->
  find coll1 req = find coll2 req.
Proof.
  intros Himp Heq. unfold find.
  rewrite <- (list_filter_filter_l _ P coll1) by done.
  rewrite <- (list_filter_filter_l _ P coll2) by done.
  by rewrite Heq.
Qed.

(** X11. A reply depends on the documents of the request's site and
    equipment only: two collections that agree on them get the same reply,
    whatever else they hold. *)
Theorem reply_depends_on_scope_only (coll1 coll2 : list document)
    (q : Query.t) :
  filter (in_scope q) coll1 = filter (in_scope q) coll2 ->
  run coll1 (handler q) = run coll2 (handler q).
Proof.
  intros Heq. rewrite !run_handler.
  destruct (plan q) as [r|req] eqn:Hplan; [done|].
  rewrite (find_depends_on_filter coll1 coll2 req (in_scope q)); [done| |done].
  intros d Hd. by destruct (matches_satisfies q req d Hplan Hd).
Qed.

(** X12. A request with a valid cursor depends on the documents after the
    cursor only: documents inserted or deleted at or before the position of
    the cursor between two requests do not change the next page. *)
Theorem reply_depends_on_later_documents_only (coll1 coll2 : list document)
    (q : Query.t) s1 s2 ts oid :
  Query.cursorTs q = Some s1 -> Query.cursorId q = Some s2 ->
  Date_parse s1 = Some ts -> ObjectId.of_string s2 = Some oid ->
  filter (after ts oid) coll1 = filter (after ts oid) coll2 ->
  run coll1 (handler q) = run coll2 (handler q).
Proof.
  intros E1 E2 Hts Hoid Heq. rewrite !run_handler.
  destruct (plan q) as [r|req] eqn:Hplan; [done|].
  rewrite (find_depends_on_filter coll1 coll2 req (after ts oid)); [done| |done].
  intros d Hd.
  destruct (plan_parts q req Hplan) as (gte & lte & _ & _ & _ & Hcur).
  rewrite (cursor_filter_valid q s1 s2 ts oid E1 E2 Hts Hoid) in Hcur.
  injection Hcur as Hcur.
  destruct (fr_filter req) as [cs o]. simpl in Hcur. subst o.
  by apply matches_cursor in Hd as [_ ?].
Qed.


(** What matches the request behind the cursor of [d] sorts strictly
    after [d]. *)
Lemma behind_cursor_after q d req x :
  cursor_readable d ->
  plan (with_cursor q (Some (cursor_at d))) = inr req ->
  matches (fr_filter req) x = true ->
  strictly_before d x.
Proof.
  intros [Hwf Hdate] Hplan Hx.
  destruct (plan_parts _ req Hplan) as (gte & lte & _ & _ & _ & Hcur).
  rewrite (cursor_filter_valid (with_cursor q (Some (cursor_at d)))
             (cursorTs (cursor_at d)) (cursorId (cursor_at d))
             (Rec.timestamp (body d)) (_id d)
             eq_refl eq_refl Hdate (ObjectIdFacts.of_string_toHexString _ Hwf))
    in Hcur.
  injection Hcur as Hcur.
  destruct (fr_filter req) as [cs o]. simpl in Hcur. subst o.
  by apply matches_cursor in Hx as [_ ?].
Qed.

Lemma sorted_before_last (l : list document) d x :
  StronglySorted (sorts_before by_time) l -> last l = Some d -> x ∈ l ->
  sorts_before by_time x d.
Proof.
  intros Hsorted [l' ->]%last_Some Hx.
  apply elem_of_app in Hx as [Hx|Hx%list_elem_of_singleton].
  - eapply StronglySorted_app_1_elem_of; [done..|]. by apply list_elem_of_singleton.
  - subst x. apply sorts_before_by_time. lia.
Qed.

(** X13. Consecutive pages never overlap, even when documents are
    inserted or deleted between the two requests: every document of the
    page requested with the [nextCursor] of a page sorts strictly after
    every document of that page. *)
Theorem next_page_is_strictly_later (coll1 coll2 : list document)
    (q : Query.t) (c0 : option cursor) (p1 p2 : page) (c : cursor) :
  Forall cursor_readable coll1 ->
  run coll1 (handler (with_cursor q c0)) = SendPage p1 ->
  nextCursor p1 = Some c ->
  run coll2 (handler (with_cursor q (Some c))) = SendPage p2 ->
  exists docs1 docs2,
    items p1 = project (projection q) <$> docs1
    /\ items p2 = project (projection q) <$> docs2
    /\ docs1 ⊆ coll1 /\ docs2 ⊆ coll2
    /\ forall d1 d2, d1 ∈ docs1 -> d2 ∈ docs2 -> strictly_before d1 d2.
Proof.
  intros Hreadable. rewrite !run_handler.
  destruct (plan (with_cursor q c0)) as [r|req1] eqn:Hplan1.
  { apply plan_refusal in Hplan1 as [msg ->]. done. }
  destruct (chosen_sorted coll1 _ req1 Hplan1) as [Hsorted1 Hall1].
  destruct (plan_shape _ req1 Hplan1) as (Hproj1 & _).
  unfold find at 1. rewrite Hproj1, respond_projected.
  change (projection (with_cursor q c0)) with (projection q).
  change (Query.limit (with_cursor q c0)) with (Query.limit q).
  intros [= <-]. cbn [nextCursor items].
  destruct (Query.limit q <? Z.of_nat (length (chosen coll1 req1)))%Z; [|done].
  destruct (slice0_take (chosen coll1 req1) (Query.limit q)) as [k ->].
  destruct (last (take k (chosen coll1 req1))) as [dl|] eqn:Hlast; [|done].
  intros [= <-].
  destruct (plan (with_cursor q (Some (cursor_at dl)))) as [r|req2] eqn:Hplan2.
  { apply plan_refusal in Hplan2 as [msg ->]. done. }
  destruct (chosen_sorted coll2 _ req2 Hplan2) as [_ Hall2].
  destruct (plan_shape _ req2 Hplan2) as (Hproj2 & _).
  unfold find. rewrite Hproj2, respond_projected.
  change (projection (with_cursor q (Some (cursor_at dl)))) with (projection q).
  intros [= <-]. cbn [items].
  eexists _, _. split; [done|]. split; [done|].
  assert (forall d, d ∈ take k (chosen coll1 req1) -> d ∈ coll1) as Hin1.
  { intros d Hd%subseteq_take.
    by apply (proj1 (Forall_forall _ _) Hall1) in Hd as [? _]. }
  match goal with
  | |- _ /\ ?l ⊆ _ /\ _ =>
      assert (forall d, d ∈ l -> d ∈ coll2 /\ matches (fr_filter req2) d = true)
        as Hin2
  end.
  { intros d Hd. apply (proj1 (Forall_forall _ _) Hall2).
    destruct (_ <? _)%Z; [|done].
    destruct (slice0_take (chosen coll2 req2) (Query.limit q)) as [k2 Hk2].
    rewrite Hk2 in Hd. by apply subseteq_take in Hd. }
  split; [exact Hin1|]. split; [intros d Hd; by apply Hin2|].
  intros d1 d2 Hd1 Hd2.
  assert (sorts_before by_time d1 dl) as Hle.
  { eapply sorted_before_last; [|done..]. by apply StronglySorted_take. }
  assert (strictly_before dl d2) as Hlt.
  { eapply behind_cursor_after; [|done|by apply Hin2].
    apply (proj1 (Forall_forall _ _) Hreadable), Hin1.
    apply last_Some in Hlast as [l' ->]. apply elem_of_app. right.
    by apply list_elem_of_singleton. }
  apply sorts_before_by_time in Hle. unfold strictly_before, after in *. lia.
Qed.

(** X14. The route answers status 500 in two cases only, and a page
    in every other: the collection failed, or it answered more rows than
    the limit and the last row of the page has no date as [timestamp]. *)
Theorem server_error_cases (q : Query.t) (res : completion (list item)) :
  (exists st msg, respond q res = SendError st msg)
  <-> (exists e, res = Throw e)
      \/ (exists docs l,
            res = Ok docs
            /\ (Query.limit q < Z.of_nat (length docs))%Z
            /\ last (slice0 docs (Query.limit q)) = Some l
            /\ ~ dated l).
Proof.
  unfold respond. destruct res as [docs|e]; cbn [bind].
  2:{ split; [intros _; left; eauto|intros _; eauto]. }
  destruct (Query.limit q <? Z.of_nat (length docs))%Z eqn:Hmore.
  - apply Z.ltb_lt in Hmore.
    destruct (last (slice0 docs (Query.limit q))) as [l|] eqn:Hlast; cbn [bind].
    + assert (dated l \/ ~ dated l) as [[t Ht]|Hnd].
      { unfold dated.
        destruct (item_fields l !! "timestamp") as [[| | |t|]|];
          [right|right|right|left|right|right]; try (by exists t);
          by intros [? [=]]. }
      * unfold cursor_of. rewrite Ht. cbn [bind].
        split; [by intros (st & msg & ?)|].
        intros [[e [=]]|(docs' & l' & [= <-] & _ & Hl' & Hnd)].
        rewrite Hlast in Hl'. injection Hl' as <-. destruct Hnd. by exists t.
      * split; [|intros _].
        -- intros _. right. by exists docs, l.
        -- unfold cursor_of, dated in *.
           destruct (item_fields l !! "timestamp") as [[| | |t|]|];
             cbn [bind]; try (by eexists _, _).
           destruct Hnd. by exists t.
    + split; [by intros (st & msg & ?)|].
      intros [[e [=]]|(docs' & l' & [= <-] & _ & Hl' & _)].
      by rewrite Hlast in Hl'.
  - cbn [bind]. apply Z.ltb_ge in Hmore.
    split; [by intros (st & msg & ?)|].
    intros [[e [=]]|(docs' & l' & [= <-] & ? & _)]. lia.
Qed.

(** X15. Against a collection, the route never answers status 500: a
    request is answered with a page, or refused with status 400. *)
Theorem collection_run_never_fails (coll : list document) (q : Query.t) :
  (exists p, run coll (handler q) = SendPage p)
  \/ (exists msg, run coll (handler q) = SendError 400 msg).
Proof.
  rewrite run_handler. destruct (plan q) as [r|req] eqn:Hplan.
  - right. by apply plan_refusal in Hplan.
  - left. destruct (plan_shape q req Hplan) as (Hproj & _).
    unfold find. rewrite Hproj, respond_projected. eauto.
Qed.

(** The plan does not look at [includeDetections] but for the
    projection. *)
Lemma plan_with_detections q b :
  plan (with_detections q b) =
    match plan q with
    | inl r => inl r
    | inr req =>
        inr {| fr_filter := fr_filter req;
               fr_projection := projection (with_detections q b);
               fr_sort := fr_sort req;
               fr_limit := fr_limit req |}
    end.
Proof.
  unfold plan. cbn [with_detections Query.from Query.to Query.siteId
    Query.equipmentId Query.confidenceMin Query.limit].
  change (cursor_filter (with_detections q b)) with (cursor_filter q).
  destruct (time_bound (Query.from q) _) as [r|gte]; [done|].
  destruct (time_bound (Query.to q) _) as [r|lte]; [done|].
  destruct (match gte with Some a => _ | None => _ end); [done|].
  by destruct (cursor_filter q).
Qed.

Lemma project_without_detections q (d : document) :
  project (projection (with_detections q false)) d
  = without_detections (project (projection (with_detections q true)) d).
Proof.
  unfold project, without_detections.
  cbn [item_id item_fields projection with_detections Query.includeDetections].
  f_equal.
Qed.

(** X16. [includeDetections] changes nothing but the payload: the reply
    to a request without it is the reply to the same request with it, the
    [detections] taken off every item; status, message, count, scope and
    cursor are the same. *)
Theorem detections_are_payload_only (coll : list document) (q : Query.t) :
  run coll (handler (with_detections q false))
  = lighten (run coll (handler (with_detections q true))).
Proof.
  rewrite !run_handler, !plan_with_detections.
  destruct (plan q) as [r|req] eqn:Hplan.
  { by apply plan_refusal in Hplan as [msg ->]. }
  unfold find. cbn [fr_projection fr_filter fr_sort fr_limit].
  rewrite !respond_projected. cbn [lighten count siteId equipmentId nextCursor items].
  do 2 f_equal. rewrite <- list_fmap_compose. apply list_fmap_ext.
  intros _ d _. apply project_without_detections.
Qed.

End with_host.

(** ** The pages of a whole traversal *)

Section traversal.
Context `{Host}.
Variable coll : list document.
Variable q : Query.t.
Variable base : find_request.
Hypothesis distinct_ids : NoDup (_id <$> coll).
Hypothesis readable : Forall cursor_readable coll.
Hypothesis limit_positive : (1 <= Query.limit q)%Z.
Hypothesis valid : plan (with_cursor q None) = inr base.

Local Abbreviation matching :=
  (merge_sort (sorts_before by_time)
     (filter (fun d => matches (fr_filter base) d = true) coll)).

Local Abbreviation n := (Z.to_nat (Query.limit q)).

Lemma full_pages_from fuel : forall pre rest c,
  matching = pre ++ rest -> behind pre c -> length rest < fuel ->
  exists full lastpg,
    pages fuel coll q c = Some (full ++ [lastpg])
    /\ Forall (fun pg => length pg = n) full
    /\ length lastpg <= n
    /\ length full * n + length lastpg = length rest
    /\ (lastpg = [] -> rest = []).
Proof.
  induction fuel as [|fuel IH]; intros pre rest c Hsplit Hc Hfuel; [lia|].
  destruct (PagingFacts.find_next coll q base distinct_ids readable
              limit_positive valid pre rest c Hsplit Hc) as (req & Hplan & Hfind).
  destruct (PagingFacts.respond_next q limit_positive rest c)
    as (p & Hp & Hitems & Hnext).
  simpl. unfold handler. rewrite Hplan. simpl. rewrite Hfind, Hp, Hnext.
  destruct (decide (n < length rest)) as [Hmore|Hlast].
  - destruct (last (take n rest)) as [d|] eqn:Hd.
    + simpl. apply last_Some in Hd as [l' Hl'].
      destruct (IH (pre ++ take n rest) (drop n rest) (Some (cursor_at d)))
        as (full & lastpg & Hpgs & Hfull & Hshort & Hlen & Hempty).
      * by rewrite <- app_assoc, take_drop.
      * simpl. exists (pre ++ l'), d. by rewrite Hl', app_assoc.
      * rewrite length_drop. lia.
      * rewrite Hpgs. simpl. exists (items p :: full), lastpg.
        assert (length (items p) = n) as Hn
          by (rewrite Hitems, length_fmap, length_take; lia).
        split; [done|]. split; [by constructor|]. split; [done|]. split.
        -- simpl. rewrite length_drop in Hlen. lia.
        -- intros Hnil%Hempty. apply (f_equal length) in Hnil.
           rewrite length_drop in Hnil. simpl in Hnil. lia.
    + apply last_None in Hd. apply (f_equal length) in Hd.
      rewrite length_take in Hd. simpl in Hd. lia.
  - exists [], (items p). split; [done|]. split; [done|].
    assert (length (items p) = length rest) as Hn
      by (rewrite Hitems, length_fmap, length_take; lia).
    split; [lia|]. split; [simpl; lia|].
    intros Hnil. rewrite Hnil in Hn. by destruct rest.
Qed.

(** X17. Under the conditions of the traversal (distinct [_id]s,
    cursors that read back, a limit of at least 1, a valid request) every
    page but the last holds exactly [limit] items, the pages together hold
    as many items as documents match, and the last page is empty only when
    it is the only one: the traversal makes no request that the matching
    documents do not call for. *)
Theorem only_the_last_page_is_short :
  exists full lastpg,
    pages (S (length coll)) coll q None = Some (full ++ [lastpg])
    /\ Forall (fun pg => length pg = n) full
    /\ length lastpg <= n
    /\ length full * n + length lastpg
       = length (filter (fun d => matches (fr_filter base) d = true) coll)
    /\ (lastpg = [] -> full = []).
Proof.
  destruct (full_pages_from (S (length coll)) [] matching None)
    as (full & lastpg & Hpgs & Hfull & Hshort & Hlen & Hempty);
    [done|done| |].
  { assert (length matching <= length coll); [|lia].
    rewrite merge_sort_Permutation. apply length_filter. }
  exists full, lastpg. split; [done|]. split; [done|]. split; [done|].
  assert (length matching
          = length (filter (fun d => matches (fr_filter base) d = true) coll))
    as Hperm by (by rewrite merge_sort_Permutation).
  split; [by rewrite <- Hperm|].
  intros Hnil. specialize (Hempty Hnil). rewrite Hempty, Hnil in Hlen.
  destruct full; [done|]. simpl in Hlen. lia.
Qed.

End traversal.
End RouteMore.

Module RouteMoreExamples.
Import JS Mongo Routes Words Notions MoreSamples RouteMore.

Lemma page_is_a_bounded_prefix_witness :
  exists docs,
    Ok (project names <$> [doc6; doc7; doc5]) = Ok docs
    /\ count page1 = length (items page1)
    /\ items page1 = take (length (items page1)) docs
    /\ (length (items page1) <= 2)%nat.
Proof.
  destruct (page_is_a_bounded_prefix (H := IsoHost.host)
              (Samples.query None 2 None)
              (Ok (project names <$> [doc6; doc7; doc5])) page1)
    as (docs & Hres & Hcount & Hitems & Hlen & _).
  - vm_compute. discriminate.
  - vm_compute. reflexivity.
  - exists docs. repeat split; assumption.
Defined.

Lemma page_items_match_and_are_sorted_witness :
  exists docs,
    items page1 = project names <$> docs
    /\ Forall (fun d => d ∈ Samples.stored
                        /\ satisfies (H := IsoHost.host)
                             (Samples.query None 2 None) d) docs.
Proof.
  destruct (page_items_match_and_are_sorted (H := IsoHost.host) Samples.stored
              (Samples.query None 2 None) page1)
    as (docs & Hitems & _ & Hall).
  - vm_compute. reflexivity.
  - exists docs. split; [exact Hitems|exact Hall].
Defined.

Lemma reply_depends_on_scope_only_witness :
  run Samples.stored (handler (H := IsoHost.host) (Samples.query None 2 None))
  = run (elsewhere :: Samples.stored)
      (handler (H := IsoHost.host) (Samples.query None 2 None)).
Proof.
  apply (reply_depends_on_scope_only (H := IsoHost.host)).
  vm_compute. reflexivity.
Defined.

Lemma reply_depends_on_later_documents_only_witness :
  run Samples.stored
    (handler (H := IsoHost.host) (Samples.query None 2 (Some cursor7)))
  = run stored_later
      (handler (H := IsoHost.host) (Samples.query None 2 (Some cursor7))).
Proof.
  apply (reply_depends_on_later_documents_only (H := IsoHost.host)
           Samples.stored stored_later (Samples.query None 2 (Some cursor7))
           "1970-01-01T00:00:01.000Z" "000000000000000000000007" 1000 7%N);
    vm_compute; reflexivity.
Defined.

Lemma next_page_is_strictly_later_witness :
  exists docs1 docs2,
    items page1 = project names <$> docs1
    /\ items page2 = project names <$> docs2
    /\ forall d1 d2, d1 ∈ docs1 -> d2 ∈ docs2 -> strictly_before d1 d2.
Proof.
  destruct (next_page_is_strictly_later (H := IsoHost.host)
              Samples.stored stored_later (Samples.query None 2 None) None
              page1 page2 cursor7)
    as (docs1 & docs2 & H1 & H2 & _ & _ & Hlater).
  - exact PagingFacts.sample_readable.
  - vm_compute. reflexivity.
  - reflexivity.
  - vm_compute. reflexivity.
  - exists docs1, docs2. split; [exact H1|]. split; [exact H2|exact Hlater].
Defined.

Lemma only_the_last_page_is_short_witness :
  exists full lastpg,
    pages (H := IsoHost.host) 4 Samples.stored (Samples.query None 2 None) None
      = Some (full ++ [lastpg])
    /\ Forall (fun pg => length pg = 2) full
    /\ length full * 2 + length lastpg = 3.
Proof.
  destruct (only_the_last_page_is_short (H := IsoHost.host) Samples.stored
              (Samples.query None 2 None)
              {| fr_filter :=
                   {| conds := [SiteIdEq "s1"; EquipmentIdEq "e1";
                                ConfidenceGte (StringToNumber "0.75")];
                      or_ := None |};
                 fr_projection := names;
                 fr_sort := [(ByTimestamp, (-1)%Z); (ById, (-1)%Z)];
                 fr_limit := 3 |})
    as (full & lastpg & Hpgs & Hfull & _ & Hlen & _).
  - compute_done.
  - exact PagingFacts.sample_readable.
  - vm_compute. discriminate.
  - reflexivity.
  - exists full, lastpg. split; [exact Hpgs|]. split; [exact Hfull|exact Hlen].
Defined.

End RouteMoreExamples.
